(** * NeuraPixel: admission control and artifact storage

    A shallow embedding of the two stateful services of the repository:

    - [RateLimiter] of [middleware.py]: the per-client sliding-window
      admission check;
    - [FileManager] of [services/file_manager.py]: the date-partitioned
      image store, its lookup and listing functions, the retention sweep
      and its scheduler.

    Modelling conventions.  A point in time is an integer number of
    microseconds ([Z]); this covers both [time.time()] (a float number of
    seconds) and naive local [datetime] values, whose resolution is one
    microsecond.  Clock readings are explicit arguments of the functions
    that read the clock, and all datetimes are taken to lie in the range
    [datetime] can represent, so that date arithmetic does not overflow.
    A Python [str] or [bytes] value is a [string] (a sequence of 8-bit
    characters).  A [dict] is a [gmap].  The directory tree below the base
    directory is a two-level finite map whose keys are single path
    components.  Operations of the operating system succeed unless the
    tree itself makes them fail (a file where a directory is needed, a
    directory where a file is needed); [save_file] also takes the fault to
    inject.  Float-valued fields of the returned dictionaries are left
    out; the one float that reaches the log is rendered from exact
    arithmetic. *)

From Stdlib Require Import ZArith String Ascii List Lia Bool.
From stdpp Require Import gmap strings list fin_maps sorting.

Local Open Scope string_scope.
Local Open Scope Z_scope.

(** ** Durations *)

Definition seconds (n : Z) : Z := n * 1000000.
Definition day_us : Z := seconds 86400.

(** ** Strings *)

Module Str.

Definition eqb_char (a b : ascii) : bool := Ascii.eqb a b.

(** [c in chars] *)
Fixpoint in_chars (c : ascii) (chars : string) : bool :=
  match chars with
  | EmptyString => false
  | String a rest => eqb_char c a || in_chars c rest
  end.

(** [all(p(c) for c in s)] *)
Fixpoint all_chars (p : ascii → bool) (s : string) : bool :=
  match s with
  | EmptyString => true
  | String a rest => p a && all_chars p rest
  end.

Fixpoint starts_with (pre s : string) : bool :=
  match pre, s with
  | EmptyString, _ => true
  | String a pre', String b s' => eqb_char a b && starts_with pre' s'
  | String _ _, EmptyString => false
  end.

(** [needle in hay] *)
Fixpoint contains (needle hay : string) : bool :=
  starts_with needle hay ||
  match hay with
  | EmptyString => false
  | String _ hay' => contains needle hay'
  end.

(** [s.rfind(c)], with [None] for -1 *)
Fixpoint rfind (c : ascii) (s : string) : option nat :=
  match s with
  | EmptyString => None
  | String a rest =>
      match rfind c rest with
      | Some i => Some (S i)
      | None => if eqb_char a c then Some O else None
      end
  end.

Fixpoint drop (n : nat) (s : string) : string :=
  match n, s with
  | O, _ => s
  | S n', String _ rest => drop n' rest
  | S _, EmptyString => EmptyString
  end.

Definition lower_char (c : ascii) : ascii :=
  let n := nat_of_ascii c in
  if (Nat.leb 65 n && Nat.leb n 90)%bool then ascii_of_nat (n + 32) else c.

Fixpoint lower (s : string) : string :=
  match s with
  | EmptyString => EmptyString
  | String a rest => String (lower_char a) (lower rest)
  end.

(** The characters [str.strip()] removes (those with [isspace()] among the
    first 128 code points). *)
Definition is_space (c : ascii) : bool :=
  let n := nat_of_ascii c in
  (Nat.leb 9 n && Nat.leb n 13) || (Nat.leb 28 n && Nat.leb n 32).

Fixpoint lstrip (s : string) : string :=
  match s with
  | EmptyString => EmptyString
  | String a rest => if is_space a then lstrip rest else s
  end.

Fixpoint rstrip (s : string) : string :=
  match s with
  | EmptyString => EmptyString
  | String a rest =>
      match rstrip rest with
      | EmptyString => if is_space a then EmptyString else String a EmptyString
      | r => String a r
      end
  end.

Definition strip (s : string) : string := rstrip (lstrip s).

(** [s.split(sep)[0]]: the part of [s] before the first occurrence of
    [sep], all of [s] when there is none. *)
Fixpoint split_first (sep s : string) : string :=
  if starts_with sep s then EmptyString
  else match s with
       | EmptyString => EmptyString
       | String a rest => String a (split_first sep rest)
       end.

(** [f.readlines()] in text mode with universal newlines: the lines of the
    file, each with its terminator translated to a line feed. [cur] is the
    line being read. *)
Fixpoint readlines_from (cur s : string) : list string :=
  match s with
  | EmptyString =>
      match cur with EmptyString => [] | _ => [cur] end
  | String c rest =>
      if eqb_char c "010" then (cur +:+ String "010" EmptyString) :: readlines_from EmptyString rest
      else if eqb_char c "013" then
        match rest with
        | String c' rest' =>
            if eqb_char c' "010"
            then (cur +:+ String "010" EmptyString) :: readlines_from EmptyString rest'
            else (cur +:+ String "010" EmptyString) :: readlines_from EmptyString rest
        | EmptyString => [cur +:+ String "010" EmptyString]
        end
      else readlines_from (cur +:+ String c EmptyString) rest
  end.

Definition readlines (s : string) : list string := readlines_from EmptyString s.

(** Character classes: decimal digits, visible characters, and characters
    that are not line terminators. *)
Definition is_digit (c : ascii) : bool :=
  let n := nat_of_ascii c in Nat.leb 48 n && Nat.leb n 57.
Definition is_visible (c : ascii) : bool :=
  let n := nat_of_ascii c in Nat.leb 33 n && Nat.leb n 126.
Definition is_text (c : ascii) : bool :=
  let n := nat_of_ascii c in Nat.leb 32 n && Nat.leb n 126.

(** The alphabet of [hexdigest()]. *)
Definition is_hex (c : ascii) : bool := in_chars c "0123456789abcdef".

(** Decimal digits. *)
Definition digit (n : Z) : ascii := ascii_of_nat (48 + Z.to_nat (n mod 10)).

Fixpoint digits_from (fuel : nat) (n : Z) (acc : string) : string :=
  let acc' := String (digit n) acc in
  match fuel with
  | O => acc'
  | S fuel' => if n <? 10 then acc' else digits_from fuel' (n / 10) acc'
  end.

(** [str(n)] for an integer. *)
Definition of_int (n : Z) : string :=
  if n <? 0 then String "-" (digits_from (Z.to_nat (Z.log2 (- n))) (- n) EmptyString)
  else digits_from (Z.to_nat (Z.log2 n)) n EmptyString.

(** Zero-padded fields of fixed width, as [%02d], [%04d] and [%06d]. *)
Definition pad2 (n : Z) : string :=
  String (digit (n / 10)) (String (digit n) EmptyString).
Definition pad4 (n : Z) : string :=
  String (digit (n / 1000)) (String (digit (n / 100)) (pad2 n)).
Definition pad6 (n : Z) : string :=
  String (digit (n / 100000)) (String (digit (n / 10000)) (pad4 n)).

(** [s[:-n]] *)
Fixpoint drop_right (n : nat) (s : string) : string :=
  match s with
  | EmptyString => EmptyString
  | String a rest =>
      if Nat.leb (String.length s) n then EmptyString else String a (drop_right n rest)
  end.

(** [s.lstrip('.')] *)
Fixpoint lstrip_dots (s : string) : string :=
  match s with
  | EmptyString => EmptyString
  | String a rest => if eqb_char a "." then lstrip_dots rest else s
  end.

End Str.

(** ** The rate limiter of [middleware.py] *)

Module RateLimiter.

Record t := mk {
  requests_per_minute : Z;
  requests_per_hour : Z;
  (** [defaultdict(deque)]: request timestamps per client, oldest first *)
  minute_requests : gmap string (list Z);
  hour_requests : gmap string (list Z);
  last_cleanup : Z
}.

(** [self.cleanup_interval = 300], set once by [__init__] *)
Definition cleanup_interval : Z := seconds 300.

(** [RateLimiter(requests_per_minute, requests_per_hour)], constructed at
    time [now]. *)
Definition init (per_minute per_hour now : Z) : t :=
  mk per_minute per_hour ∅ ∅ now.

(** [while requests and requests[0] < cutoff: requests.popleft()] *)
Fixpoint popleft_while (cutoff : Z) (requests : list Z) : list Z :=
  match requests with
  | [] => []
  | x :: rest => if x <? cutoff then popleft_while cutoff rest else requests
  end.

(** One pass of a cleanup loop over a dictionary: every deque is trimmed,
    and the entry is deleted when the deque is left empty. *)
Definition trim_or_delete (cutoff : Z) (requests : list Z) : option (list Z) :=
  match popleft_while cutoff requests with
  | [] => None
  | l => Some l
  end.

Definition _cleanup_old_requests (current_time : Z) (s : t) : t :=
  if current_time - last_cleanup s <? cleanup_interval then s
  else
    let minute_cutoff := current_time - seconds 60 in
    let hour_cutoff := current_time - seconds 3600 in
    mk (requests_per_minute s) (requests_per_hour s)
       (omap (trim_or_delete minute_cutoff) (minute_requests s))
       (omap (trim_or_delete hour_cutoff) (hour_requests s))
       current_time.

(** [d[client_id]] on a [defaultdict(deque)]: the stored deque, or a new
    empty one (which the caller stores back). *)
Definition getitem (d : gmap string (list Z)) (client_id : string) : list Z :=
  default [] (d !! client_id).

Definition per_minute_message : string := "Too many requests per minute".
Definition per_hour_message : string := "Too many requests per hour".

(** [is_allowed()].  [current_time] is the reading taken by [is_allowed]
    itself, [sweep_time] the later one taken inside
    [_cleanup_old_requests]; [client_id] is the result of
    [_get_client_id()]. *)
Definition is_allowed (current_time sweep_time : Z) (client_id : string) (s : t)
  : (bool * option string) * t :=
  let s := _cleanup_old_requests sweep_time s in
  let minute_cutoff := current_time - seconds 60 in
  let minute := popleft_while minute_cutoff (getitem (minute_requests s) client_id) in
  if Z.of_nat (length minute) >=? requests_per_minute s then
    ((false, Some per_minute_message),
     mk (requests_per_minute s) (requests_per_hour s)
        (<[client_id := minute]> (minute_requests s))
        (hour_requests s) (last_cleanup s))
  else
    let hour_cutoff := current_time - seconds 3600 in
    let hour := popleft_while hour_cutoff (getitem (hour_requests s) client_id) in
    if Z.of_nat (length hour) >=? requests_per_hour s then
      ((false, Some per_hour_message),
       mk (requests_per_minute s) (requests_per_hour s)
          (<[client_id := minute]> (minute_requests s))
          (<[client_id := hour]> (hour_requests s)) (last_cleanup s))
    else
      ((true, None),
       mk (requests_per_minute s) (requests_per_hour s)
          (<[client_id := (minute ++ [current_time])%list]> (minute_requests s))
          (<[client_id := (hour ++ [current_time])%list]> (hour_requests s))
          (last_cleanup s)).

(** A client calling [is_allowed] at the successive times [times], each
    call reading the clock once. *)
Fixpoint calls (times : list Z) (client_id : string) (s : t) : list (bool * option string) * t :=
  match times with
  | [] => ([], s)
  | now :: rest =>
      let '(r, s1) := is_allowed now now client_id s in
      let '(rs, s2) := calls rest client_id s1 in
      (r :: rs, s2)
  end.

(** Requests by any clients, each reading the clock once. *)
Fixpoint serve (requests : list (Z * string)) (s : t) : list (bool * option string) * t :=
  match requests with
  | [] => ([], s)
  | (now, client_id) :: rest =>
      let '(r, s1) := is_allowed now now client_id s in
      let '(rs, s2) := serve rest s1 in
      (r :: rs, s2)
  end.

(** The sliding-window rule stated on the history of admitted requests,
    for comparison with [is_allowed]: [recent span now history] counts the
    admitted requests not older than [span]. *)
Definition recent (span now : Z) (history : list Z) : nat :=
  length (List.filter (λ x, now - span <=? x) history).

Fixpoint reference_sliding_window (per_minute per_hour : Z) (history times : list Z)
  : list (bool * option string) :=
  match times with
  | [] => []
  | now :: rest =>
      if Z.of_nat (recent (seconds 60) now history) >=? per_minute then
        (false, Some per_minute_message)
          :: reference_sliding_window per_minute per_hour history rest
      else if Z.of_nat (recent (seconds 3600) now history) >=? per_hour then
        (false, Some per_hour_message)
          :: reference_sliding_window per_minute per_hour history rest
      else
        (true, None)
          :: reference_sliding_window per_minute per_hour (history ++ [now])%list rest
  end.

End RateLimiter.

(** ** The response headers of [middleware.py]

    A response is modelled by its header dictionary. *)

Module Headers.

Definition content_security_policy : string :=
  "default-src 'self'; script-src 'self' 'unsafe-inline'; style-src 'self' 'unsafe-inline' https://cdn.tailwindcss.com; img-src 'self' data: https:; connect-src 'self'; font-src 'self' https:; object-src 'none'; base-uri 'self'; form-action 'self'".

Definition add_security_headers (headers : gmap string string) : gmap string string :=
  <["Content-Security-Policy" := content_security_policy]>
    (<["Referrer-Policy" := "strict-origin-when-cross-origin"]>
       (<["X-XSS-Protection" := "1; mode=block"]>
          (<["X-Frame-Options" := "DENY"]>
             (<["X-Content-Type-Options" := "nosniff"]> headers)))).

(** [endpoint] is [request.endpoint]. *)
Definition add_performance_headers (endpoint : option string)
    (headers : gmap string string) : gmap string string :=
  if bool_decide (endpoint = Some "static") then
    <["Cache-Control" := "public, max-age=31536000"]> headers
  else if bool_decide (endpoint = Some "health")
          || bool_decide (endpoint = Some "get_storage_stats") then
    <["Cache-Control" := "no-cache, must-revalidate"]> headers
  else
    <["Expires" := "0"]>
      (<["Pragma" := "no-cache"]>
         (<["Cache-Control" := "no-cache, no-store, must-revalidate"]> headers)).

(** [enable_cors] and [allowed_origins] are the [ENABLE_CORS] and
    [ALLOWED_ORIGINS] settings, [origin] the request's [Origin] header. *)
Definition add_cors_headers (enable_cors : bool) (allowed_origins : list string)
    (origin : option string) (headers : gmap string string) : gmap string string :=
  if enable_cors then
    let listed :=
      match allowed_origins with
      | [] => true
      | _ :: _ =>
          match origin with
          | Some o => bool_decide (o ∈ allowed_origins)
          | None => false
          end
      end in
    if listed then
      let allow_origin :=
        match origin with
        | Some EmptyString | None => "*"
        | Some o => o
        end in
      <["Access-Control-Max-Age" := "3600"]>
        (<["Access-Control-Allow-Headers" := "Content-Type, Authorization"]>
           (<["Access-Control-Allow-Methods" := "GET, POST, OPTIONS"]>
              (<["Access-Control-Allow-Origin" := allow_origin]> headers)))
    else headers
  else headers.

(** The [after_request] handler registered by [init_middleware]; the
    request logger that ends it returns the response as it is. *)
Definition after_request (enable_cors : bool) (allowed_origins : list string)
    (endpoint origin : option string) (headers : gmap string string)
  : gmap string string :=
  add_cors_headers enable_cors allowed_origins origin
    (add_performance_headers endpoint (add_security_headers headers)).

End Headers.

(** ** Calendar dates

    The proleptic Gregorian calendar of Python's [datetime]: day 1 is
    0001-01-01. *)

Module Calendar.

Definition is_leap (y : Z) : bool :=
  (y mod 4 =? 0) && (negb (y mod 100 =? 0) || (y mod 400 =? 0)).

Definition month_length (leap : bool) (m : Z) : Z :=
  if m =? 2 then (if leap then 29 else 28)
  else if (m =? 4) || (m =? 6) || (m =? 9) || (m =? 11) then 30 else 31.

Definition days_in_month (y m : Z) : Z := month_length (is_leap y) m.

(** Number of days in the first [k] months of a year. *)
Fixpoint days_before (leap : bool) (k : nat) : Z :=
  match k with
  | O => 0
  | S k' => days_before leap k' + month_length leap (Z.of_nat k)
  end.

Definition days_before_month (y m : Z) : Z :=
  days_before (is_leap y) (Z.to_nat (m - 1)).

Definition days_before_year (y : Z) : Z :=
  let y1 := y - 1 in y1 * 365 + y1 / 4 - y1 / 100 + y1 / 400.

(** [date(y, m, d).toordinal()] *)
Definition ymd2ord (y m d : Z) : Z :=
  days_before_year y + days_before_month y m + d.

(** Year of an ordinal, with the zero-based day within that year. *)
Definition ord2year (n : Z) : Z * Z :=
  let n := n - 1 in
  let n400 := n / 146097 in let n := n mod 146097 in
  let n100 := n / 36524 in let n := n mod 36524 in
  let n4 := n / 1461 in let n := n mod 1461 in
  let n1 := n / 365 in let n := n mod 365 in
  let year := n400 * 400 + 1 + n100 * 100 + n4 * 4 + n1 in
  if (n1 =? 4) || (n100 =? 4) then (year - 1, 365) else (year, n).

(** Month and day of the zero-based day [r] of a year, counting months
    from [m]. *)
Fixpoint month_of (fuel : nat) (leap : bool) (m r : Z) : Z * Z :=
  match fuel with
  | O => (m, r + 1)
  | S fuel' =>
      if r <? month_length leap m then (m, r + 1)
      else month_of fuel' leap (m + 1) (r - month_length leap m)
  end.

(** [date.fromordinal(n)] as year, month, day. *)
Definition ord2ymd (n : Z) : Z * Z * Z :=
  let '(y, r) := ord2year n in
  let '(m, d) := month_of 11 (is_leap y) 1 r in
  (y, m, d).

(** The triples [date(y, m, d)] accepts. *)
Definition valid_date (y m d : Z) : bool :=
  (1 <=? y) && (y <=? 9999) && (1 <=? m) && (m <=? 12) &&
  (1 <=? d) && (d <=? days_in_month y m).

Definition min_ordinal : Z := 1.
Definition max_ordinal : Z := 3652059.

End Calendar.

(** ** Naive local [datetime] values

    A [datetime] is the number of microseconds since the midnight that
    begins day 0, so that [dt / day_us] is its date's ordinal. *)

Module Datetime.
Import Calendar.

Definition ordinal (dt : Z) : Z := dt / day_us.

(** The values a [datetime] object can hold. *)
Definition representable (dt : Z) : Prop :=
  min_ordinal ≤ ordinal dt ≤ max_ordinal.

(** [dt - timedelta(days=k)] *)
Definition minus_days (dt k : Z) : Z := dt - k * day_us.

(** [dt.strftime("%Y-%m-%d")], the year written with four digits. *)
Definition strftime_ymd (dt : Z) : string :=
  let '(y, m, d) := ord2ymd (ordinal dt) in
  Str.pad4 y +:+ "-" +:+ Str.pad2 m +:+ "-" +:+ Str.pad2 d.

(** [dt.isoformat()] *)
Definition isoformat (dt : Z) : string :=
  let tod := dt mod day_us in
  let us := tod mod 1000000 in
  let secs := tod / 1000000 in
  strftime_ymd dt +:+ "T" +:+ Str.pad2 (secs / 3600) +:+ ":" +:+
  Str.pad2 (secs / 60 mod 60) +:+ ":" +:+ Str.pad2 (secs mod 60) +:+
  (if us =? 0 then "" else "." +:+ Str.pad6 us).

Definition digit_val (c : ascii) : option Z :=
  let n := nat_of_ascii c in
  if (Nat.leb 48 n && Nat.leb n 57)%bool then Some (Z.of_nat n - 48) else None.

Definition digit_between (lo hi : Z) (c : ascii) : option Z :=
  match digit_val c with
  | Some v => if (lo <=? v) && (v <=? hi) then Some v else None
  | None => None
  end.

(** The [%m] directive of [strptime]: the pattern [1[0-2]|0[1-9]|[1-9]],
    alternatives tried in this order. Returns the month and the rest. *)
Definition parse_month (s : string) : option (Z * string) :=
  match s with
  | String a rest =>
      let two :=
        match rest with
        | String b rest' =>
            if Str.eqb_char a "1" then
              match digit_between 0 2 b with Some v => Some (10 + v, rest') | None => None end
            else if Str.eqb_char a "0" then
              match digit_between 1 9 b with Some v => Some (v, rest') | None => None end
            else None
        | EmptyString => None
        end in
      match two with
      | Some r => Some r
      | None => match digit_between 1 9 a with Some v => Some (v, rest) | None => None end
      end
  | EmptyString => None
  end.

(** The [%d] directive: [3[0-1]|[1-2]\d|0[1-9]|[1-9]| [1-9]]. *)
Definition parse_day (s : string) : option (Z * string) :=
  match s with
  | String a rest =>
      let two :=
        match rest with
        | String b rest' =>
            if Str.eqb_char a "3" then
              match digit_between 0 1 b with Some v => Some (30 + v, rest') | None => None end
            else if Str.eqb_char a "0" || Str.eqb_char a " " then
              match digit_between 1 9 b with Some v => Some (v, rest') | None => None end
            else
              match digit_between 1 2 a, digit_val b with
              | Some u, Some v => Some (10 * u + v, rest')
              | _, _ => None
              end
        | EmptyString => None
        end in
      match two with
      | Some r => Some r
      | None => match digit_between 1 9 a with Some v => Some (v, rest) | None => None end
      end
  | EmptyString => None
  end.

(** [datetime.strptime(s, "%Y-%m-%d")]; [None] stands for [ValueError]
    (no match, unconverted data, or a day the month does not have). *)
Definition strptime_ymd (s : string) : option Z :=
  match s with
  | String a (String b (String c (String d (String dash rest)))) =>
      match digit_val a, digit_val b, digit_val c, digit_val d with
      | Some a, Some b, Some c, Some d =>
          if Str.eqb_char dash "-" then
            match parse_month rest with
            | Some (m, String dash' rest') =>
                if Str.eqb_char dash' "-" then
                  match parse_day rest' with
                  | Some (dd, EmptyString) =>
                      let y := 1000 * a + 100 * b + 10 * c + d in
                      if valid_date y m dd then Some (ymd2ord y m dd * day_us) else None
                  | _ => None
                  end
                else None
            | _ => None
            end
          else None
      | _, _, _, _ => None
      end
  | _ => None
  end.

(** The part of [datetime.fromisoformat] that reads back what
    [isoformat] writes: [YYYY-MM-DDTHH:MM:SS] with an optional
    [.ffffff]. *)
Definition two_digits (a b : ascii) : option Z :=
  match digit_val a, digit_val b with
  | Some u, Some v => Some (10 * u + v)
  | _, _ => None
  end.

Definition fromisoformat_written (s : string) : option Z :=
  match strptime_ymd (Str.split_first "T" s), Str.drop 10 s with
  | Some day,
    String t (String h1 (String h2 (String c1 (String m1 (String m2
      (String c2 (String s1 (String s2 frac)))))))) =>
      match two_digits h1 h2, two_digits m1 m2, two_digits s1 s2 with
      | Some h, Some m, Some sec =>
          let ok := Str.eqb_char t "T" && Str.eqb_char c1 ":" && Str.eqb_char c2 ":"
                    && (h <? 24) && (m <? 60) && (sec <? 60) in
          let base := day + seconds (h * 3600 + m * 60 + sec) in
          match frac with
          | EmptyString => if ok then Some base else None
          | String dot (String f1 (String f2 (String f3 (String f4 (String f5
              (String f6 EmptyString)))))) =>
              match two_digits f1 f2, two_digits f3 f4, two_digits f5 f6 with
              | Some x, Some y, Some z =>
                  if ok && Str.eqb_char dot "." then Some (base + x * 10000 + y * 100 + z)
                  else None
              | _, _, _ => None
              end
          | _ => None
          end
      | _, _, _ => None
      end
  | _, _ => None
  end.

End Datetime.

(** ** The file manager of [services/file_manager.py] *)

Module FileManager.
Import Datetime.

(** *** The directory tree

    The children of [base_directory] are regular files (the cleanup log
    among them) or directories; a directory holds regular files and
    entries of other kinds (nested directories and the like).  File names
    are single path components. *)

Record meta := mk_meta { st_ctime : Z; st_mtime : Z }.

Inductive entry :=
| EFile (data : string) (times : meta)
| EOther (size : Z) (times : meta).

Inductive node :=
| NFile (data : string)
| NDir (children : gmap string entry).

Record t := mk { base_directory : string; max_age_days : Z }.

Definition cleanup_log_file : string := "cleanup_log.txt".

Record path := mk_path { bucket : string; name : string }.

#[global] Instance path_eq_decision : EqDecision path.
Proof. solve_decision. Defined.

(** [str(filepath)] *)
Definition path_str (self : t) (p : path) : string :=
  base_directory self +:+ "/" +:+ bucket p +:+ "/" +:+ name p.

(** [str(filepath.relative_to(self.base_directory))] *)
Definition relative_str (p : path) : string := bucket p +:+ "/" +:+ name p.

Definition is_file (e : entry) : bool :=
  match e with EFile _ _ => true | EOther _ _ => false end.

Definition st_size (e : entry) : Z :=
  match e with
  | EFile data _ => Z.of_nat (String.length data)
  | EOther size _ => size
  end.

Definition times_of (e : entry) : meta :=
  match e with EFile _ m => m | EOther _ m => m end.

(** [filepath.stat()], [None] when the path does not exist *)
Definition stat (fs : gmap string node) (p : path) : option entry :=
  match fs !! bucket p with
  | Some (NDir children) => children !! name p
  | _ => None
  end.

(** [filepath.exists()] *)
Definition path_exists (fs : gmap string node) (p : path) : bool :=
  match stat fs p with Some _ => true | None => false end.

(** [base_directory.iterdir()] and [date_dir.iterdir()] *)
Definition iterdir {A} (d : gmap string A) : list (string * A) := map_to_list d.

(** The entries of the base directory that pass
    [date_dir.is_dir() and date_dir.name != '__pycache__']. *)
Definition subdirectories (fs : gmap string node) : list (string * gmap string entry) :=
  '(dir_name, n) ← iterdir fs;
  match n with
  | NDir children => if String.eqb dir_name "__pycache__" then [] else [(dir_name, children)]
  | NFile _ => []
  end.

(** *** [get_storage_path] and [ensure_storage_directory] *)

Definition get_storage_path (date : option Z) (now : Z) : string :=
  strftime_ymd (default now date).

(** [storage_path.mkdir(parents=True, exist_ok=True)]; [None] when the
    path exists and is not a directory. *)
Definition mkdir (fs : gmap string node) (dir_name : string) : option (gmap string node) :=
  match fs !! dir_name with
  | None => Some (<[dir_name := NDir ∅]> fs)
  | Some (NDir _) => Some fs
  | Some (NFile _) => None
  end.

(** *** [validate_filename] *)

Definition allowed_chars : string :=
  "abcdefghijklmnopqrstuvwxyzABCDEFGHIJKLMNOPQRSTUVWXYZ0123456789_.-".

Definition allowed_extensions : list string := [".png"; ".jpg"; ".jpeg"].

(** [Path(filename).suffix] for a name without separators *)
Definition suffix (filename : string) : string :=
  match Str.rfind "." filename with
  | Some i =>
      if (Nat.ltb 0 i && Nat.ltb i (String.length filename - 1))%bool
      then Str.drop i filename else ""
  | None => ""
  end.

Definition validate_filename (filename : string) : bool :=
  match filename with
  | EmptyString => false
  | _ =>
      if Str.contains ".." filename || Str.contains "/" filename
         || Str.contains (String "092" EmptyString) filename then false
      else if negb (Str.all_chars (λ c, Str.in_chars c allowed_chars) filename) then false
      else
        let file_ext := Str.lower (suffix filename) in
        if negb (existsb (String.eqb file_ext) allowed_extensions) then false
        else true
  end.

(** *** [save_file] *)

(** Where the operating system makes a call of [save_file] fail, if it
    does: the directory creation, the write after [written] bytes, or the
    [stat] that follows the write. *)
Inductive fault := NoFault | MkdirFails | WriteFails (written : nat) | StatFails.

Record file_info := mk_info {
  info_filename : string;
  info_filepath : string;
  info_relative_path : string;
  info_size : Z;
  info_date : string
}.

(** The outcome of [save_file]: the dictionary it returns, or the
    [RuntimeError] it raises. *)
Inductive save_result := Saved (info : file_info) | RuntimeError.

(** [file_data[:n]] *)
Fixpoint prefix_bytes (n : nat) (s : string) : string :=
  match n, s with
  | S n', String a rest => String a (prefix_bytes n' rest)
  | _, _ => EmptyString
  end.

Definition children_of (fs : gmap string node) (dir_name : string) : gmap string entry :=
  match fs !! dir_name with
  | Some (NDir children) => children
  | _ => ∅
  end.

(** [now] is the clock reading, [stamp] the timestamps the file system
    gives the written file. *)
Definition save_file (self : t) (io : fault) (file_data filename : string)
    (date : option Z) (now : Z) (stamp : meta) (fs : gmap string node)
  : save_result * gmap string node :=
  let storage_dir := get_storage_path date now in
  match (match io with MkdirFails => None | _ => mkdir fs storage_dir end) with
  | None => (RuntimeError, fs)
  | Some fs1 =>
      let filepath := mk_path storage_dir filename in
      let children := children_of fs1 storage_dir in
      match children !! filename with
      | Some (EOther _ _) => (RuntimeError, fs1)
      | _ =>
          let written :=
            match io with WriteFails k => prefix_bytes k file_data | _ => file_data end in
          let fs2 := <[storage_dir := NDir (<[filename := EFile written stamp]> children)]> fs1 in
          match io, stat fs2 filepath with
          | NoFault, Some e =>
              (Saved (mk_info filename (path_str self filepath) (relative_str filepath)
                        (st_size e) (strftime_ymd (default now date))),
               fs2)
          | _, _ => (RuntimeError, fs2)
          end
      end
  end.

(** *** [get_file_path], [get_file_info], [delete_file] *)

Definition get_file_path (filename : string) (date : option Z) (now : Z)
    (fs : gmap string node) : option path :=
  match date with
  | Some d =>
      let filepath := mk_path (get_storage_path (Some d) now) filename in
      if path_exists fs filepath then Some filepath else None
  | None =>
      List.find (path_exists fs)
        (List.map (λ days_back : nat,
                     mk_path (get_storage_path (Some (minus_days now (Z.of_nat days_back))) now)
                             filename)
                  (List.seq 0 7))
  end.

Record file_details := mk_details {
  det_filename : string;
  det_filepath : string;
  det_size : Z;
  det_created : Z;
  det_modified : Z;
  det_extension : string
}.

Definition get_file_info (self : t) (filename : string) (now : Z)
    (fs : gmap string node) : option file_details :=
  if negb (validate_filename filename) then None
  else
    match get_file_path filename None now fs with
    | None => None
    | Some filepath =>
        match stat fs filepath with
        | None => None
        | Some e =>
            Some (mk_details filename (path_str self filepath) (st_size e)
                    (st_ctime (times_of e)) (st_mtime (times_of e))
                    (Str.lower (suffix (name filepath))))
        end
    end.

(** [filepath.unlink()] *)
Definition unlink (fs : gmap string node) (p : path) : gmap string node :=
  match fs !! bucket p with
  | Some (NDir children) => <[bucket p := NDir (delete (name p) children)]> fs
  | _ => fs
  end.

Definition delete_file (filename : string) (now : Z) (fs : gmap string node)
  : bool * gmap string node :=
  if negb (validate_filename filename) then (false, fs)
  else
    match get_file_path filename None now fs with
    | None => (false, fs)
    | Some filepath =>
        match stat fs filepath with
        | Some (EFile _ _) => (true, unlink fs filepath)
        | _ => (false, fs)
        end
    end.

(** *** [list_files] *)

Record listing := mk_listing {
  l_filename : string;
  l_filepath : string;
  l_size : Z;
  l_created : Z;
  l_date : string
}.

(** The records one directory contributes: its regular files with a
    valid name. *)
Definition list_directory (self : t) (dir_name date_label : string)
    (children : gmap string entry) : list listing :=
  '(file_name, e) ← iterdir children;
  if is_file e && validate_filename file_name
  then [mk_listing file_name (path_str self (mk_path dir_name file_name))
          (st_size e) (st_ctime (times_of e)) date_label]
  else [].

(** [files.sort(key=lambda x: x['created'], reverse=True)]: a stable sort,
    newest first. *)
Fixpoint insert_newest_first (x : listing) (l : list listing) : list listing :=
  match l with
  | [] => [x]
  | y :: rest =>
      if l_created x <? l_created y then y :: insert_newest_first x rest
      else x :: l
  end.

Definition sort_newest_first (l : list listing) : list listing :=
  foldr insert_newest_first [] l.

(** The order the sort establishes between a record and a later one. *)
Definition newer_first (a b : listing) : Prop := l_created b ≤ l_created a.

(** [files[:limit]] under [if limit:] *)
Definition apply_limit (limit : option Z) (files : list listing) : list listing :=
  match limit with
  | None => files
  | Some n =>
      if n =? 0 then files
      else if 0 <? n then List.firstn (Z.to_nat n) files
      else List.firstn (Z.to_nat (Z.of_nat (length files) + n)) files
  end.

Definition list_files (self : t) (date : option Z) (limit : option Z)
    (now : Z) (fs : gmap string node) : list listing :=
  match date with
  | Some d =>
      let storage_path := get_storage_path (Some d) now in
      match fs !! storage_path with
      | None => apply_limit limit (sort_newest_first [])
      | Some (NFile _) => []
      | Some (NDir children) =>
          apply_limit limit
            (sort_newest_first (list_directory self storage_path (strftime_ymd d) children))
      end
  | None =>
      apply_limit limit
        (sort_newest_first
           ('(dir_name, children) ← subdirectories fs;
            list_directory self dir_name dir_name children))
  end.

(** *** [get_storage_stats] *)

Record directory_stats := mk_dir_stats {
  d_date : string;
  d_files : nat;
  d_size : Z
}.

Record storage_stats := mk_stats {
  total_files : nat;
  total_size : Z;
  directories : list directory_stats;
  stats_base_directory : string
}.

Definition sum_sizes (l : list Z) : Z := foldr Z.add 0 l.

(** The files a directory holds, as [(name, st_size)], in [iterdir]
    order: the entries with [filepath.is_file()]. *)
Definition regular_files (children : gmap string entry) : list (string * Z) :=
  '(file_name, e) ← iterdir children;
  if is_file e then [(file_name, st_size e)] else [].

(** The field [total_size_mb] (a float) is left out. *)
Definition get_storage_stats (self : t) (fs : gmap string node) : storage_stats :=
  let per_dir :=
    (λ '(dir_name, children),
       let files := regular_files children in
       mk_dir_stats dir_name (length files) (sum_sizes files.*2)) <$> subdirectories fs in
  mk_stats (foldr Nat.add O (d_files <$> per_dir))
           (sum_sizes (d_size <$> per_dir))
           (List.filter (λ d, Nat.ltb 0 (d_files d)) per_dir)
           (base_directory self).

(** *** [cleanup_old_files] *)

Record candidate := mk_candidate {
  c_filepath : path;
  c_filename : string;
  c_size : Z;
  c_date : string;
  c_age_days : Z
}.

(** The body of the enumeration loop for one directory.  A name that
    [strptime] rejects raises [ValueError], and the directory is skipped. *)
Definition candidates_in (now cutoff_date : Z) (dir_name : string)
    (children : gmap string entry) : list candidate :=
  match strptime_ymd dir_name with
  | Some dir_date =>
      if dir_date <? cutoff_date then
        '(file_name, size) ← regular_files children;
        [mk_candidate (mk_path dir_name file_name) file_name size dir_name
           ((now - dir_date) / day_us)]
      else []
  | None => []
  end.

Definition find_candidates (now cutoff_date : Z) (fs : gmap string node) : list candidate :=
  '(dir_name, children) ← subdirectories fs;
  candidates_in now cutoff_date dir_name children.

(** The deletion loop: returns [deleted_files] and the tree it leaves. *)
Fixpoint delete_files (files_to_delete : list candidate) (fs : gmap string node)
  : list candidate * gmap string node :=
  match files_to_delete with
  | [] => ([], fs)
  | file_info :: rest =>
      if path_exists fs (c_filepath file_info) then
        let '(deleted, fs') := delete_files rest (unlink fs (c_filepath file_info)) in
        (file_info :: deleted, fs')
      else delete_files rest fs
  end.

(** The loop that removes empty directories, over the directories listed
    after the deletions: returns [deleted_directories] and the tree. *)
Fixpoint remove_empty (dirs : list (string * gmap string entry)) (fs : gmap string node)
  : list string * gmap string node :=
  match dirs with
  | [] => ([], fs)
  | (dir_name, children) :: rest =>
      match iterdir children with
      | [] =>
          let '(removed, fs') := remove_empty rest (delete dir_name fs) in
          (dir_name :: removed, fs')
      | _ :: _ => remove_empty rest fs
      end
  end.

(** The dictionary [cleanup_old_files] returns, without its two float
    fields. *)
Record cleanup_result := mk_result {
  dry_run : bool;
  cutoff_date : string;
  r_max_age_days : Z;
  files_found : nat;
  files_deleted : nat;
  directories_deleted : nat;
  size_freed_bytes : Z;
  potential_size_to_free_bytes : Z
}.

(** The text of [round(size / (1024 * 1024), 2)]: the number of
    hundredths nearest to the quotient (ties to even), written with one
    or two decimals. *)
Definition megabytes_repr (size : Z) : string :=
  let q := size * 100 / 1048576 in
  let r := size * 100 mod 1048576 in
  let h := if 524288 <? r then q + 1
           else if r =? 524288 then q + q mod 2 else q in
  let f := h mod 100 in
  Str.of_int (h / 100) +:+ "." +:+
  (if f mod 10 =? 0 then String (Str.digit (f / 10)) EmptyString else Str.pad2 f).

(** The text of a log line before its final line feed. *)
Definition log_line (r : cleanup_result) (log_now : Z) : string :=
  isoformat log_now +:+ " - " +:+
  "Cleanup " +:+ (if dry_run r then "(DRY RUN)" else "") +:+ ": " +:+
  "Found " +:+ Str.of_int (Z.of_nat (files_found r)) +:+ " files, " +:+
  "Deleted " +:+ Str.of_int (Z.of_nat (files_deleted r)) +:+ " files, " +:+
  "Freed " +:+ megabytes_repr (size_freed_bytes r) +:+ " MB".

Definition log_entry (r : cleanup_result) (log_now : Z) : string :=
  log_line r log_now +:+ String "010" EmptyString.

(** [open(self.cleanup_log_file, 'a')] and the write; a failure to open
    is logged and swallowed. *)
Definition _log_cleanup_results (results : cleanup_result) (log_now : Z)
    (fs : gmap string node) : gmap string node :=
  match fs !! cleanup_log_file with
  | None => <[cleanup_log_file := NFile (log_entry results log_now)]> fs
  | Some (NFile old) => <[cleanup_log_file := NFile (old +:+ log_entry results log_now)]> fs
  | Some (NDir _) => fs
  end.

(** [now] is the clock reading at the start of the sweep, [log_now] the
    one taken when the log line is written. *)
Definition cleanup_old_files (self : t) (dry_run : bool) (now log_now : Z)
    (fs : gmap string node) : cleanup_result * gmap string node :=
  let cutoff_date := minus_days now (max_age_days self) in
  let files_to_delete := find_candidates now cutoff_date fs in
  let total_size_to_free := sum_sizes (c_size <$> files_to_delete) in
  let '(deleted_files, deleted_directories, fs') :=
    match negb dry_run, files_to_delete with
    | true, _ :: _ =>
        let '(deleted_files, fs1) := delete_files files_to_delete fs in
        let '(deleted_directories, fs2) := remove_empty (subdirectories fs1) fs1 in
        (deleted_files, deleted_directories, fs2)
    | _, _ => ([], [], fs)
    end in
  let cleanup_result :=
    mk_result dry_run (strftime_ymd cutoff_date) (max_age_days self)
      (length files_to_delete) (length deleted_files) (length deleted_directories)
      (sum_sizes (c_size <$> deleted_files)) total_size_to_free in
  (cleanup_result, _log_cleanup_results cleanup_result log_now fs').

(** *** [schedule_cleanup] *)

Inductive schedule_result :=
| Performed (r : cleanup_result)
| NotNeeded (last_cleanup : string) (next_cleanup_in_seconds : Z).

Section scheduling.
(** [datetime.fromisoformat], with [None] for [ValueError]. *)
Variable fromisoformat : string → option Z.

Definition _get_last_cleanup_time (fs : gmap string node) : option Z :=
  match fs !! cleanup_log_file with
  | None => None
  | Some (NDir _) => None
  | Some (NFile content) =>
      match last (Str.readlines content) with
      | None => None
      | Some line =>
          match Str.strip line with
          | EmptyString => None
          | last_line => fromisoformat (Str.split_first " - " last_line)
          end
      end
  end.

(** [now] is read by [schedule_cleanup]; [sweep_now] and [log_now] by
    the sweep it may start. *)
Definition schedule_cleanup (self : t) (force : bool) (now sweep_now log_now : Z)
    (fs : gmap string node) : schedule_result * gmap string node :=
  match _get_last_cleanup_time fs with
  | Some last_cleanup =>
      if force || (seconds 86400 <? now - last_cleanup) then
        let '(r, fs') := cleanup_old_files self false sweep_now log_now fs in
        (Performed r, fs')
      else
        let time_until_next := seconds 86400 - (now - last_cleanup) in
        (NotNeeded (isoformat last_cleanup) (Z.quot time_until_next 1000000), fs)
  | None =>
      let '(r, fs') := cleanup_old_files self false sweep_now log_now fs in
      (Performed r, fs')
  end.

End scheduling.

(** *** [create_filename] *)

Section naming.
(** [hashlib.md5(prompt.encode('utf-8')).hexdigest()] *)
Variable md5_hexdigest : string → string.

(** [datetime.now().strftime("%Y%m%d_%H%M%S_%f")] *)
Definition strftime_compact (dt : Z) : string :=
  let '(y, m, d) := Calendar.ord2ymd (ordinal dt) in
  let tod := dt mod day_us in
  let secs := tod / 1000000 in
  Str.pad4 y +:+ Str.pad2 m +:+ Str.pad2 d +:+ "_" +:+
  Str.pad2 (secs / 3600) +:+ Str.pad2 (secs / 60 mod 60) +:+ Str.pad2 (secs mod 60) +:+
  "_" +:+ Str.pad6 (tod mod 1000000).

Definition create_filename (now : Z) (prompt extension : string) : string :=
  let timestamp := Str.drop_right 3 (strftime_compact now) in
  let prompt_hash := prefix_bytes 8 (md5_hexdigest prompt) in
  let extension := Str.lstrip_dots extension in
  timestamp +:+ "_" +:+ prompt_hash +:+ "." +:+ extension.

End naming.

End FileManager.

(** ** [CleanupService] of [services/file_manager.py] *)

Module CleanupService.
Import Datetime FileManager.

Section service.
Variable fromisoformat : string → option Z.

(** [run_daily_cleanup]: [now] is read by the scheduler, [sweep_now] and
    [log_now] by the sweep it may start. *)
Definition run_daily_cleanup (file_manager : FileManager.t) (now sweep_now log_now : Z)
    (fs : gmap string node) : schedule_result * gmap string node :=
  schedule_cleanup fromisoformat file_manager false now sweep_now log_now fs.

Definition run_manual_cleanup (file_manager : FileManager.t) (dry_run : bool)
    (now log_now : Z) (fs : gmap string node) : cleanup_result * gmap string node :=
  cleanup_old_files file_manager dry_run now log_now fs.

(** The dictionary [get_cleanup_status] returns, without its float
    field. *)
Record cleanup_status := mk_status {
  status_storage_stats : storage_stats;
  status_last_cleanup : option string;
  files_eligible_for_cleanup : nat;
  status_max_age_days : Z
}.

Definition get_cleanup_status (file_manager : FileManager.t) (now log_now : Z)
    (fs : gmap string node) : cleanup_status * gmap string node :=
  let storage_stats := get_storage_stats file_manager fs in
  let last_cleanup := _get_last_cleanup_time fromisoformat fs in
  let '(dry_run_result, fs') := cleanup_old_files file_manager true now log_now fs in
  (mk_status storage_stats (isoformat <$> last_cleanup) (files_found dry_run_result)
     (max_age_days file_manager),
   fs').

End service.

End CleanupService.

(** ** The download route of [app.py] *)

Module App.
Import FileManager.

Inductive response :=
| SendFile (filepath : path)
| NotFound404
| Error500.

Section routes.
(** [send_file(str(filepath), as_attachment=True)]: whether Flask builds
    the response ([true]) or raises. *)
Variable send_file : gmap string node → path → bool.

(** [download_image]: [get_file_path] may return [None], whose
    [.exists()] raises [AttributeError].  Every exception ends in the 500
    answer. *)
Definition download_image (filename : string) (now : Z) (fs : gmap string node)
  : response :=
  match get_file_path filename None now fs with
  | None => Error500
  | Some filepath =>
      if path_exists fs filepath then
        if send_file fs filepath then SendFile filepath else Error500
      else NotFound404
  end.

End routes.

End App.

(** ** Sample data used in the examples *)

Definition sample_name : string := "20240101_120000_000_abcdef12.png".
Definition sample_manager : FileManager.t := FileManager.mk "generated_images" 30.
Definition sample_stamp : FileManager.meta := FileManager.mk_meta 0 0.
(** 2024-03-01 12:34:56 *)
Definition sample_now : Z := 738946 * day_us + seconds 45296.

(** * Properties *)

Example of_int_samples :
  Str.of_int 0 = "0" ∧ Str.of_int 7 = "7" ∧ Str.of_int 1234567 = "1234567" ∧
  Str.of_int (-40) = "-40" ∧ Str.pad4 2024 = "2024" ∧ Str.pad2 7 = "07" ∧
  Str.pad6 1200 = "001200".
Proof. repeat split; reflexivity. Qed.

Example readlines_samples :
  Str.readlines ("a" +:+ String "010" ("b" +:+ String "013" (String "010" "c"))) =
    ["a" +:+ String "010" ""; "b" +:+ String "010" ""; "c"] ∧
  Str.readlines "" = [] ∧
  Str.strip ("  x - y " +:+ String "010" "") = "x - y" ∧
  Str.split_first " - " "ab - cd - ef" = "ab" ∧
  Str.split_first " - " "abc" = "abc".
Proof. repeat split; reflexivity. Qed.

(** ** Sliding windows *)

Section windows.
Import RateLimiter.

Lemma popleft_while_split cutoff l :
  ∃ dropped, l = (dropped ++ popleft_while cutoff l)%list ∧
             Forall (λ x, x < cutoff) dropped.
Proof.
  induction l as [|x l [d [Hd Hf]]]; simpl.
  - exists []. split; [done | constructor].
  - destruct (x <? cutoff) eqn:E.
    + exists (x :: d). split; [simpl; congruence|].
      constructor; [lia | done].
    + exists []. split; [done | constructor].
Qed.

Lemma popleft_while_idem cutoff l :
  popleft_while cutoff (popleft_while cutoff l) = popleft_while cutoff l.
Proof.
  induction l as [|x l IH]; simpl; [done|].
  destruct (x <? cutoff) eqn:E; [done|]. simpl. by rewrite E.
Qed.

Lemma popleft_while_length cutoff l :
  (length (popleft_while cutoff l) ≤ length l)%nat.
Proof.
  induction l as [|x l IH]; simpl; [lia|].
  destruct (x <? cutoff); simpl; lia.
Qed.

Lemma popleft_while_fresh cutoff l :
  Forall (λ x, cutoff ≤ x) l → popleft_while cutoff l = l.
Proof.
  destruct 1 as [|x l Hx _]; simpl; [done|].
  destruct (x <? cutoff) eqn:E; [lia | done].
Qed.

Lemma getitem_insert d c c' l :
  getitem (<[c := l]> d) c' = if decide (c = c') then l else getitem d c'.
Proof. unfold getitem. rewrite lookup_insert. by case_decide. Qed.

Lemma getitem_trim cutoff d c :
  getitem (omap (trim_or_delete cutoff) d) c = popleft_while cutoff (getitem d c).
Proof.
  unfold getitem, trim_or_delete. rewrite lookup_omap.
  destruct (d !! c) as [l|]; simpl; [|done].
  by destruct (popleft_while cutoff l).
Qed.

(** What the periodic sweep does to one client's windows. *)
Lemma cleanup_windows now s c :
  let s' := _cleanup_old_requests now s in
  requests_per_minute s' = requests_per_minute s ∧
  requests_per_hour s' = requests_per_hour s ∧
  (getitem (minute_requests s') c = getitem (minute_requests s) c ∨
   getitem (minute_requests s') c =
     popleft_while (now - seconds 60) (getitem (minute_requests s) c)) ∧
  (getitem (hour_requests s') c = getitem (hour_requests s) c ∨
   getitem (hour_requests s') c =
     popleft_while (now - seconds 3600) (getitem (hour_requests s) c)).
Proof.
  unfold _cleanup_old_requests.
  destruct (now - last_cleanup s <? cleanup_interval); simpl.
  - auto.
  - rewrite !getitem_trim. auto.
Qed.

Lemma cleanup_settled now s :
  _cleanup_old_requests now (_cleanup_old_requests now s) = _cleanup_old_requests now s.
Proof.
  unfold _cleanup_old_requests at 2 3.
  destruct (now - last_cleanup s <? cleanup_interval) eqn:E.
  - unfold _cleanup_old_requests. by rewrite E.
  - unfold _cleanup_old_requests. simpl.
    replace (now - now <? cleanup_interval) with true; [done|].
    symmetry. apply Z.ltb_lt. unfold cleanup_interval, seconds. lia.
Qed.

Lemma cleanup_after_is_allowed ct st c s :
  _cleanup_old_requests st (snd (is_allowed ct st c s)) = snd (is_allowed ct st c s).
Proof.
  unfold is_allowed.
  pose proof (cleanup_settled st s) as Hs.
  set (s1 := _cleanup_old_requests st s) in *.
  assert (Hl : (st - last_cleanup s1 <? cleanup_interval) = true).
  { unfold _cleanup_old_requests in Hs.
    destruct (st - last_cleanup s1 <? cleanup_interval) eqn:E; [done|].
    exfalso. apply (f_equal last_cleanup) in Hs. simpl in Hs.
    apply Z.ltb_ge in E. unfold cleanup_interval, seconds in E. lia. }
  repeat case_match; simpl; unfold _cleanup_old_requests; simpl; by rewrite Hl.
Qed.

(** A request that finds both windows below their limits, with nothing
    to expire, is admitted and recorded in both. *)
Lemma is_allowed_admit t c s :
  let minute := getitem (minute_requests s) c in
  let hour := getitem (hour_requests s) c in
  Forall (λ x, t - seconds 60 ≤ x) minute →
  Forall (λ x, t - seconds 3600 ≤ x) hour →
  Z.of_nat (length minute) < requests_per_minute s →
  Z.of_nat (length hour) < requests_per_hour s →
  let '(r, s') := is_allowed t t c s in
  r = (true, None) ∧
  requests_per_minute s' = requests_per_minute s ∧
  requests_per_hour s' = requests_per_hour s ∧
  getitem (minute_requests s') c = (minute ++ [t])%list ∧
  getitem (hour_requests s') c = (hour ++ [t])%list.
Proof.
  intros minute hour Hm Hh Lm Lh. unfold is_allowed.
  destruct (cleanup_windows t s c) as (Em & Eh & Vm & Vh).
  set (s1 := _cleanup_old_requests t s) in *.
  assert (Vm' : getitem (minute_requests s1) c = minute).
  { destruct Vm as [->| ->]; [done|]. by apply popleft_while_fresh. }
  assert (Vh' : getitem (hour_requests s1) c = hour).
  { destruct Vh as [->| ->]; [done|]. by apply popleft_while_fresh. }
  rewrite Vm', Vh', Em, Eh.
  rewrite !popleft_while_fresh by done.
  destruct (Z.of_nat (length minute) >=? requests_per_minute s) eqn:E1; [lia|].
  destruct (Z.of_nat (length hour) >=? requests_per_hour s) eqn:E2; [lia|].
  simpl. rewrite !getitem_insert. by rewrite !decide_True by done.
Qed.

(** A burst of requests inside one 60 s span, small enough for both
    limits, is admitted whole and recorded in order. *)
Lemma calls_admitted c t1 times : ∀ s,
  let minute := getitem (minute_requests s) c in
  let hour := getitem (hour_requests s) c in
  Forall (λ x, t1 ≤ x) minute →
  Forall (λ x, t1 ≤ x) hour →
  Forall (λ t, t1 ≤ t ≤ t1 + seconds 60) times →
  Z.of_nat (length minute + length times) ≤ requests_per_minute s →
  Z.of_nat (length hour + length times) ≤ requests_per_hour s →
  let '(rs, s') := calls times c s in
  Forall (λ r, r = (true, None)) rs ∧ length rs = length times ∧
  requests_per_minute s' = requests_per_minute s ∧
  requests_per_hour s' = requests_per_hour s ∧
  getitem (minute_requests s') c = (minute ++ times)%list ∧
  getitem (hour_requests s') c = (hour ++ times)%list.
Proof.
  induction times as [|t times IH]; intros s minute hour Hm Hh Ht Lm Lh; simpl.
  - rewrite !app_nil_r. repeat split; auto.
  - apply Forall_cons in Ht as [Ht1 Ht].
    pose proof (is_allowed_admit t c s) as Hstep. simpl in Hstep.
    destruct (is_allowed t t c s) as [r s1].
    destruct Hstep as (-> & Em & Eh & Vm & Vh).
    + eapply Forall_impl; [exact Hm|]. unfold seconds in *. simpl. intros; lia.
    + eapply Forall_impl; [exact Hh|]. unfold seconds in *. simpl. intros; lia.
    + fold minute. simpl in Lm. lia.
    + fold hour. simpl in Lh. lia.
    + specialize (IH s1). simpl in IH. rewrite Vm, Vh, Em, Eh in IH.
      destruct (calls times c s1) as [rs s2].
      destruct IH as (Hr & Hlen & Em2 & Eh2 & Vm2 & Vh2).
      * apply Forall_app. split; [done|]. repeat constructor. lia.
      * apply Forall_app. split; [done|]. repeat constructor. lia.
      * done.
      * fold minute. rewrite length_app. simpl in *. lia.
      * fold hour. rewrite length_app. simpl in *. lia.
      * repeat split; auto.
        -- simpl. by rewrite Hlen.
        -- rewrite Vm2. by rewrite <- app_assoc.
        -- rewrite Vh2. by rewrite <- app_assoc.
Qed.

(** The minute check comes first: its outcome does not depend on the hour
    window at all. *)
Lemma is_allowed_minute_denied ct st c s :
  requests_per_minute s ≤
    Z.of_nat (length (popleft_while (ct - seconds 60)
                        (getitem (minute_requests (_cleanup_old_requests st s)) c))) →
  fst (is_allowed ct st c s) = (false, Some per_minute_message).
Proof.
  intros H. unfold is_allowed.
  assert (E : requests_per_minute (_cleanup_old_requests st s) = requests_per_minute s).
  { apply (cleanup_windows st s c). }
  rewrite E.
  destruct (_ >=? requests_per_minute s) eqn:E1; [done | lia].
Qed.

End windows.

(** ** Admission: the per-minute limit *)

Section admission.
Import RateLimiter.




End admission.

(** ** Admission: a denial consumes no quota *)

Section denial.
Import RateLimiter.

Lemma trimmed_window_stays (d : gmap string (list Z)) c c' cutoff bound :
  cutoff ≤ bound →
  ∃ dropped,
    getitem d c' =
      (dropped ++ getitem (<[c := popleft_while cutoff (getitem d c)]> d) c')%list ∧
    Forall (λ x, x < bound) dropped.
Proof.
  intros Hb. rewrite getitem_insert. case_decide as E.
  - subst c'. destruct (popleft_while_split cutoff (getitem d c)) as (dr & Hd & Hf).
    exists dr. split; [done|]. eapply Forall_impl; [exact Hf|]. simpl; intros; lia.
  - exists []. split; [done | constructor].
Qed.

Lemma expired_twice (before mid after : list Z) d1 d2 (bound : Z) :
  before = (d1 ++ mid)%list → mid = (d2 ++ after)%list →
  Forall (λ x, x < bound) d1 → Forall (λ x, x < bound) d2 →
  ∃ dropped, before = (dropped ++ after)%list ∧ Forall (λ x, x < bound) dropped.
Proof.
  intros -> -> H1 H2. exists (d1 ++ d2)%list. split.
  - by rewrite <- app_assoc.
  - by apply Forall_app.
Qed.

Lemma cleanup_expires now s c bound60 bound3600 :
  now - seconds 60 ≤ bound60 → now - seconds 3600 ≤ bound3600 →
  let s' := _cleanup_old_requests now s in
  (∃ dropped, getitem (minute_requests s) c =
                (dropped ++ getitem (minute_requests s') c)%list ∧
              Forall (λ x, x < bound60) dropped) ∧
  (∃ dropped, getitem (hour_requests s) c =
                (dropped ++ getitem (hour_requests s') c)%list ∧
              Forall (λ x, x < bound3600) dropped).
Proof.
  intros B1 B2. destruct (cleanup_windows now s c) as (_ & _ & Vm & Vh).
  simpl. split.
  - destruct Vm as [->| ->]; [exists []; split; [done | constructor]|].
    destruct (popleft_while_split (now - seconds 60) (getitem (minute_requests s) c))
      as (dr & Hd & Hf).
    exists dr. split; [done|]. eapply Forall_impl; [exact Hf|]. simpl; intros; lia.
  - destruct Vh as [->| ->]; [exists []; split; [done | constructor]|].
    destruct (popleft_while_split (now - seconds 3600) (getitem (hour_requests s) c))
      as (dr & Hd & Hf).
    exists dr. split; [done|]. eapply Forall_impl; [exact Hf|]. simpl; intros; lia.
Qed.

(** C9.  When [is_allowed] denies a request, every client's minute and hour
    window afterwards is the window before with some expired timestamps
    removed from its front and nothing added; and the same call repeated
    at the same time is denied again and leaves the state as it is. *)
Theorem is_allowed_denied_frame (ct st : Z) (c : string) (s : t) :
  fst (fst (is_allowed ct st c s)) = false →
  let s' := snd (is_allowed ct st c s) in
  (∀ c', ∃ dropped,
      getitem (minute_requests s) c' = (dropped ++ getitem (minute_requests s') c')%list ∧
      Forall (λ x, x < Z.max ct st - seconds 60) dropped) ∧
  (∀ c', ∃ dropped,
      getitem (hour_requests s) c' = (dropped ++ getitem (hour_requests s') c')%list ∧
      Forall (λ x, x < Z.max ct st - seconds 3600) dropped) ∧
  is_allowed ct st c s' = is_allowed ct st c s.
Proof.
  intros Hden. pose proof (cleanup_after_is_allowed ct st c s) as Hc.
  assert (Hsw : ∀ c', _) by
    (intros c'; exact (cleanup_expires st s c' (Z.max ct st - seconds 60)
                         (Z.max ct st - seconds 3600) ltac:(lia) ltac:(lia))).
  simpl in Hsw. unfold is_allowed in *.
  set (s1 := _cleanup_old_requests st s) in *.
  set (minute := popleft_while (ct - seconds 60) (getitem (minute_requests s1) c)) in *.
  set (hour := popleft_while (ct - seconds 3600) (getitem (hour_requests s1) c)) in *.
  assert (Im : popleft_while (ct - seconds 60) minute = minute)
    by apply popleft_while_idem.
  assert (Ih : popleft_while (ct - seconds 3600) hour = hour)
    by apply popleft_while_idem.
  destruct (Z.of_nat (length minute) >=? requests_per_minute s1) eqn:E1;
    [|destruct (Z.of_nat (length hour) >=? requests_per_hour s1) eqn:E2; [|done]];
    simpl in *.
  - split; [|split].
    + intros c'. destruct (Hsw c') as [(d1 & H1 & F1) _].
      destruct (trimmed_window_stays (minute_requests s1) c c' (ct - seconds 60)
                  (Z.max ct st - seconds 60) ltac:(lia)) as (d2 & H2 & F2).
      by eapply expired_twice.
    + intros c'. exact (proj2 (Hsw c')).
    + rewrite Hc. simpl. rewrite getitem_insert, decide_True by done.
      rewrite !Im, E1. by rewrite insert_insert_eq.
  - split; [|split].
    + intros c'. destruct (Hsw c') as [(d1 & H1 & F1) _].
      destruct (trimmed_window_stays (minute_requests s1) c c' (ct - seconds 60)
                  (Z.max ct st - seconds 60) ltac:(lia)) as (d2 & H2 & F2).
      by eapply expired_twice.
    + intros c'. destruct (Hsw c') as [_ (d1 & H1 & F1)].
      destruct (trimmed_window_stays (hour_requests s1) c c' (ct - seconds 3600)
                  (Z.max ct st - seconds 3600) ltac:(lia)) as (d2 & H2 & F2).
      by eapply expired_twice.
    + rewrite Hc. simpl. rewrite !getitem_insert, !decide_True by done.
      rewrite !Im, !Ih, E1, E2. by rewrite !insert_insert_eq.
Qed.

Lemma is_allowed_denied_frame_witness :
  let s := mk 1 5 {[ "10.0.0.1:0a1b2c3d" := [seconds 10] ]}
              {[ "10.0.0.1:0a1b2c3d" := [seconds 10] ]} 0 in
  let s' := snd (is_allowed (seconds 30) (seconds 30) "10.0.0.1:0a1b2c3d" s) in
  fst (fst (is_allowed (seconds 30) (seconds 30) "10.0.0.1:0a1b2c3d" s)) = false ∧
  getitem (minute_requests s') "10.0.0.1:0a1b2c3d" = [seconds 10] ∧
  is_allowed (seconds 30) (seconds 30) "10.0.0.1:0a1b2c3d" s' =
    is_allowed (seconds 30) (seconds 30) "10.0.0.1:0a1b2c3d" s.
Proof.
  intros s s'. split; [reflexivity|]. split; [reflexivity|].
  apply (is_allowed_denied_frame (seconds 30) (seconds 30) "10.0.0.1:0a1b2c3d" s).
  reflexivity.
Defined.

End denial.

Example calendar_samples :
  Calendar.ymd2ord 1 1 1 = 1 ∧ Calendar.ymd2ord 2024 3 1 = 738946 ∧
  Calendar.ord2ymd 738946 = (2024, 3, 1) ∧ Calendar.ord2ymd 738945 = (2024, 2, 29) ∧
  Calendar.ord2ymd 3652059 = (9999, 12, 31) ∧ Calendar.ord2ymd 730485 = (2000, 12, 31).
Proof. repeat split; reflexivity. Qed.

Example datetime_samples :
  Datetime.strptime_ymd "2024-03-01" = Some (738946 * day_us) ∧
  Datetime.strptime_ymd "2024-3-1" = Some (738946 * day_us) ∧
  Datetime.strptime_ymd "2024-02-30" = None ∧
  Datetime.strptime_ymd "2024-13-01" = None ∧
  Datetime.strptime_ymd "2024-03-011" = None ∧
  Datetime.strptime_ymd "cleanup_log.txt" = None ∧
  Datetime.strftime_ymd (738946 * day_us + 5) = "2024-03-01" ∧
  Datetime.isoformat (738946 * day_us + seconds 45296) = "2024-03-01T12:34:56" ∧
  Datetime.isoformat (738946 * day_us + seconds 45296 + 1200) = "2024-03-01T12:34:56.001200" ∧
  Datetime.fromisoformat_written "2024-03-01T12:34:56.001200" =
    Some (738946 * day_us + seconds 45296 + 1200).
Proof. repeat split; reflexivity. Qed.

Example validate_filename_samples :
  FileManager.validate_filename "../../etc/passwd" = false ∧
  FileManager.validate_filename "a/b.png" = false ∧
  FileManager.validate_filename "x.exe" = false ∧
  FileManager.validate_filename "20240101_120000_000_abcdef12.png" = true ∧
  FileManager.validate_filename ".png" = false ∧
  FileManager.validate_filename "A.JPEG" = true ∧
  FileManager.validate_filename "a.png." = false ∧
  FileManager.validate_filename "" = false.
Proof. repeat split; reflexivity. Qed.

(** ** Lookup by name *)

Section lookup.
Import FileManager Datetime.

(** [get_file_path] with no date returns the first of the seven candidate
    paths that exists. *)
Lemma find_first {A} (f : A → bool) (l : list A) (i : nat) (x : A) :
  l !! i = Some x → f x = true →
  (∀ j y, (j < i)%nat → l !! j = Some y → f y = false) →
  List.find f l = Some x.
Proof.
  revert i. induction l as [|a l IH]; intros i Hi Hx Hbefore; [done|].
  destruct i as [|i]; simpl in *.
  - injection Hi as ->. by rewrite Hx.
  - rewrite (Hbefore O a) by (done || lia).
    apply (IH i); [done | done |].
    intros j y Hj Hy. apply (Hbefore (S j) y); [lia | done].
Qed.

Lemma find_present {A} (f : A → bool) (l : list A) (x : A) :
  x ∈ l → f x = true → ∃ y, List.find f l = Some y ∧ y ∈ l ∧ f y = true.
Proof.
  induction l as [|a l IH]; intros Hin Hx; [inversion Hin|]. simpl.
  destruct (f a) eqn:E.
  - exists a. repeat split; [constructor | done].
  - apply elem_of_cons in Hin as [->|Hin]; [congruence|].
    destruct (IH Hin Hx) as (y & ? & ? & ?). exists y. repeat split; auto.
    by constructor.
Qed.

(** The validated lookups.  [get_file_info] and [delete_file] call
    [validate_filename] before they look at the tree, and answer not-found
    for every name that fails it, whatever the tree holds; the three
    hostile names fail validation and the sample name passes; and when a
    file with the sample name exists in one of the seven searched
    day-buckets, [get_file_path] returns a path to it and [get_file_info]
    finds it. *)
Theorem get_file_info_validates (self : t) (filename : string) (now : Z)
    (fs : gmap string node) :
  (validate_filename filename = false →
   get_file_info self filename now fs = None ∧
   delete_file filename now fs = (false, fs)) ∧
  (validate_filename "../../etc/passwd" = false ∧
   validate_filename "a/b.png" = false ∧
   validate_filename "x.exe" = false ∧
   validate_filename sample_name = true) ∧
  (∀ days_back : nat,
      (days_back < 7)%nat →
      path_exists fs (mk_path (strftime_ymd (minus_days now (Z.of_nat days_back)))
                              sample_name) = true →
      ∃ p, get_file_path sample_name None now fs = Some p ∧
           name p = sample_name ∧ path_exists fs p = true ∧
           is_Some (get_file_info self sample_name now fs)).
Proof.
  split; [|split].
  - intros Hv. unfold get_file_info, delete_file. by rewrite Hv.
  - repeat split; reflexivity.
  - intros k Hk Hex.
    unfold get_file_info. replace (validate_filename sample_name) with true by reflexivity.
    unfold get_file_path. cbn [negb].
    set (paths := List.map _ (seq 0 7)).
    assert (Hin : mk_path (strftime_ymd (minus_days now (Z.of_nat k))) sample_name ∈ paths).
    { unfold paths. apply list_elem_of_In, in_map_iff. exists k. split; [done|].
      apply in_seq. lia. }
    destruct (find_present (path_exists fs) paths _ Hin Hex) as (p & Hf & Hp & Hpe).
    exists p. rewrite Hf. repeat split; [|done|].
    + unfold paths in Hp. apply list_elem_of_In, in_map_iff in Hp as (j & <- & _). done.
    + unfold path_exists in Hpe. destruct (stat fs p); [eauto | done].
Qed.

Lemma get_file_info_validates_witness :
  let fs : gmap string node :=
    {[ "2024-03-01" := NDir {[ sample_name := EFile "png-bytes" (mk_meta 0 0) ]} ]} in
  let now := 738948 * day_us + seconds 45296 in
  get_file_info (mk "generated_images" 30) "x.exe" now fs = None ∧
  ∃ p, get_file_path sample_name None now fs = Some p ∧
       name p = sample_name ∧ path_exists fs p = true ∧
       is_Some (get_file_info (mk "generated_images" 30) sample_name now fs).
Proof.
  intros fs now.
  pose proof (get_file_info_validates (mk "generated_images" 30) "x.exe" now fs)
    as (H1 & _ & H3).
  split.
  - apply H1. reflexivity.
  - apply (H3 2%nat); [lia | reflexivity].
Defined.

(** C1.  The claim asks [get_file_path] to validate the name first and to
    answer not-found for every name that fails validation.  On a tree that
    holds a file named [x.exe] in today's bucket, [get_file_path] returns
    the path of that file although [validate_filename] rejects the name. *)
Lemma get_file_path_serves_invalid_name :
  let fs : gmap string node :=
    {[ "2024-03-01" := NDir {[ "x.exe" := EFile "MZ" sample_stamp ]} ]} in
  validate_filename "x.exe" = false ∧
  get_file_path "x.exe" None sample_now fs = Some (mk_path "2024-03-01" "x.exe") ∧
  get_file_info sample_manager "x.exe" sample_now fs = None.
Proof. vm_compute. repeat split; reflexivity. Qed.

End lookup.

(** ** Saving *)

Section saving.
Import FileManager Datetime.

Lemma mkdir_children fs dir_name fs1 :
  mkdir fs dir_name = Some fs1 →
  fs1 !! dir_name = Some (NDir (children_of fs1 dir_name)).
Proof.
  unfold mkdir, children_of. destruct (fs !! dir_name) as [[|ch]|] eqn:E; intros [= <-].
  - by rewrite E.
  - by rewrite lookup_insert_eq.
Qed.

Lemma string_length_zero (s : string) : String.length s = O ↔ s = "".
Proof. destruct s; simpl; split; (done || lia). Qed.

(** What a returned record implies. *)
Lemma save_file_saved (self : t) (io : fault) (file_data filename : string)
    (date : option Z) (now : Z) (stamp : meta) (fs : gmap string node) :
  ∀ info fs',
    save_file self io file_data filename date now stamp fs = (Saved info, fs') →
    io = NoFault ∧
    stat fs' (mk_path (get_storage_path date now) filename) = Some (EFile file_data stamp) ∧
    info = mk_info filename (path_str self (mk_path (get_storage_path date now) filename))
             (relative_str (mk_path (get_storage_path date now) filename))
             (Z.of_nat (String.length file_data)) (strftime_ymd (default now date)).
Proof.
  intros info fs'. unfold save_file.
  set (dir := get_storage_path date now).
  destruct io; try done; [|by destruct (mkdir fs dir); repeat case_match..].
  destruct (mkdir fs dir) as [fs1|] eqn:Hmk; [|done].
  assert (Hst : stat (<[dir := NDir (<[filename := EFile file_data stamp]>
                                        (children_of fs1 dir))]> fs1)
                  (mk_path dir filename) = Some (EFile file_data stamp)).
  { unfold stat. simpl. by rewrite !lookup_insert_eq. }
  rewrite Hst.
  destruct (children_of fs1 dir !! filename) as [[|]|]; intros [= <- <-]; done.
Qed.

(** C3 (as amended).  [save_file] returns a record only when every step
    succeeded: then the tree holds exactly the bytes handed over at the
    returned path, and the record's size is what [stat] reports for that
    file after the write, namely the number of bytes handed over (zero
    for empty data, non-zero otherwise).  A failure of the directory
    creation, of the write at any point, or of the [stat] raises
    [RuntimeError] instead of returning a record. *)
Theorem save_file_verified (self : t) (io : fault) (file_data filename : string)
    (date : option Z) (now : Z) (stamp : meta) (fs : gmap string node) :
  (∀ info fs',
      save_file self io file_data filename date now stamp fs = (Saved info, fs') →
      let filepath := mk_path (get_storage_path date now) filename in
      io = NoFault ∧
      stat fs' filepath = Some (EFile file_data stamp) ∧
      Some (info_size info) = st_size <$> stat fs' filepath ∧
      info_size info = Z.of_nat (String.length file_data) ∧
      (info_size info ≠ 0 ↔ file_data ≠ "") ∧
      info_filename info = filename ∧
      info_filepath info = path_str self filepath) ∧
  (io ≠ NoFault →
   fst (save_file self io file_data filename date now stamp fs) = RuntimeError).
Proof.
  pose proof (save_file_saved self io file_data filename date now stamp fs) as Hmain.
  split.
  - intros info fs' Hs. destruct (Hmain info fs' Hs) as (-> & Hst & ->). simpl.
    rewrite Hst. simpl. repeat split; try done.
    + intros H E. subst. done.
    + intros H E. apply H. apply string_length_zero. lia.
  - intros Hio. destruct (save_file self io file_data filename date now stamp fs)
      as [[info|] fs'] eqn:E; [|done].
    by destruct (Hmain info fs' eq_refl) as (? & _).
Qed.

Lemma save_file_verified_witness :
  let fs' : gmap string node :=
    {[ "2024-03-01" := NDir {[ sample_name := EFile "png-bytes" sample_stamp ]} ]} in
  let info :=
    mk_info sample_name "generated_images/2024-03-01/20240101_120000_000_abcdef12.png"
      "2024-03-01/20240101_120000_000_abcdef12.png" 9 "2024-03-01" in
  fst (save_file sample_manager (WriteFails 3) "png-bytes" sample_name None sample_now
         sample_stamp ∅) = RuntimeError ∧
  save_file sample_manager NoFault "png-bytes" sample_name None sample_now
    sample_stamp ∅ = (Saved info, fs') ∧
  stat fs' (mk_path (get_storage_path None sample_now) sample_name)
    = Some (EFile "png-bytes" sample_stamp) ∧
  info_size info = Z.of_nat (String.length "png-bytes").
Proof.
  intros fs' info.
  assert (Hsave : save_file sample_manager NoFault "png-bytes" sample_name None
                    sample_now sample_stamp ∅ = (Saved info, fs'))
    by (vm_compute; reflexivity).
  split.
  - apply (proj2 (save_file_verified sample_manager (WriteFails 3) "png-bytes"
                    sample_name None sample_now sample_stamp ∅)).
    discriminate.
  - split; [exact Hsave|].
    pose proof (proj1 (save_file_verified sample_manager NoFault "png-bytes"
                         sample_name None sample_now sample_stamp ∅) info fs' Hsave)
      as (_ & Hst & _ & Hsz & _).
    split; [exact Hst | exact Hsz].
Defined.

(** Saving empty data succeeds and returns a record of size zero. *)
Lemma save_file_empty_counterexample :
  let fs' : gmap string node :=
    {[ "2024-03-01" := NDir {[ sample_name := EFile "" sample_stamp ]} ]} in
  let info :=
    mk_info sample_name "generated_images/2024-03-01/20240101_120000_000_abcdef12.png"
      "2024-03-01/20240101_120000_000_abcdef12.png" 0 "2024-03-01" in
  save_file sample_manager NoFault "" sample_name None sample_now sample_stamp ∅
    = (Saved info, fs') ∧
  info_size info = 0.
Proof. vm_compute. split; reflexivity. Qed.

End saving.

(** ** Enumerating the tree *)

Section enumeration.
Import FileManager Datetime.

Lemma elem_of_subdirectories (fs : gmap string node) dir_name children :
  (dir_name, children) ∈ subdirectories fs ↔
  fs !! dir_name = Some (NDir children) ∧ dir_name ≠ "__pycache__".
Proof.
  unfold subdirectories, iterdir. rewrite list_elem_of_bind. split.
  - intros ([k n] & Hin & Hk). apply elem_of_map_to_list in Hk.
    destruct n as [|ch]; [inversion Hin|].
    destruct (String.eqb k "__pycache__") eqn:E; [inversion Hin|].
    apply list_elem_of_singleton in Hin as [= -> ->].
    split; [done|]. by apply String.eqb_neq.
  - intros [Hl Hne]. exists (dir_name, NDir children). split.
    + apply String.eqb_neq in Hne. rewrite Hne. by apply list_elem_of_singleton.
    + by apply elem_of_map_to_list.
Qed.

Lemma elem_of_regular_files (children : gmap string entry) file_name size :
  (file_name, size) ∈ regular_files children ↔
  ∃ data times, children !! file_name = Some (EFile data times) ∧
                size = Z.of_nat (String.length data).
Proof.
  unfold regular_files, iterdir. rewrite list_elem_of_bind. split.
  - intros ([k e] & Hin & Hk). apply elem_of_map_to_list in Hk.
    destruct e as [data times|]; simpl in Hin; [|inversion Hin].
    apply list_elem_of_singleton in Hin as [= -> ->]. eauto.
  - intros (data & times & Hl & ->). exists (file_name, EFile data times). split.
    + by apply list_elem_of_singleton.
    + by apply elem_of_map_to_list.
Qed.

Lemma subdirectories_insert_dir (fs : gmap string node) dir_name children :
  fs !! dir_name = None → dir_name ≠ "__pycache__" →
  subdirectories (<[dir_name := NDir children]> fs)
    ≡ₚ (dir_name, children) :: subdirectories fs.
Proof.
  intros Hn Hne. unfold subdirectories, iterdir.
  rewrite map_to_list_insert by done. csimpl.
  apply String.eqb_neq in Hne. by rewrite Hne.
Qed.

Lemma subdirectories_insert_file (fs : gmap string node) file_name data :
  fs !! file_name = None →
  subdirectories (<[file_name := NFile data]> fs) ≡ₚ subdirectories fs.
Proof.
  intros Hn. unfold subdirectories, iterdir.
  by rewrite map_to_list_insert by done.
Qed.

(** Replacing the content of one directory. *)
Lemma subdirectories_replace (fs : gmap string node) dir_name children children' :
  fs !! dir_name = Some (NDir children) → dir_name ≠ "__pycache__" →
  subdirectories fs ≡ₚ (dir_name, children) :: subdirectories (delete dir_name fs) ∧
  subdirectories (<[dir_name := NDir children']> fs)
    ≡ₚ (dir_name, children') :: subdirectories (delete dir_name fs).
Proof.
  intros Hl Hne. split.
  - rewrite <- (insert_delete_id fs dir_name (NDir children)) at 1 by done.
    apply subdirectories_insert_dir; [apply lookup_delete_eq | done].
  - rewrite <- insert_delete_eq.
    apply subdirectories_insert_dir; [apply lookup_delete_eq | done].
Qed.

(** Writing a regular file at the top of the tree leaves the list of
    subdirectories as it was, up to order. *)
Lemma subdirectories_write_file (fs : gmap string node) file_name data :
  (∀ children, fs !! file_name ≠ Some (NDir children)) →
  subdirectories (<[file_name := NFile data]> fs) ≡ₚ subdirectories fs.
Proof.
  intros Hnd. destruct (fs !! file_name) as [[old|ch]|] eqn:E.
  - rewrite <- insert_delete_eq.
    rewrite <- (insert_delete_id fs file_name (NFile old)) at 2 by done.
    rewrite !subdirectories_insert_file by apply lookup_delete_eq. done.
  - by destruct (Hnd ch).
  - by apply subdirectories_insert_file.
Qed.

Lemma regular_files_insert (children : gmap string entry) file_name e :
  children !! file_name = None →
  regular_files (<[file_name := e]> children)
    ≡ₚ ((if is_file e then [(file_name, st_size e)] else []) ++ regular_files children)%list.
Proof.
  intros Hn. unfold regular_files, iterdir.
  by rewrite map_to_list_insert by done.
Qed.

Lemma sum_sizes_permutation (l1 l2 : list Z) :
  l1 ≡ₚ l2 → sum_sizes l1 = sum_sizes l2.
Proof. unfold sum_sizes. induction 1; simpl; lia. Qed.

Lemma sum_nat_permutation (l1 l2 : list nat) :
  l1 ≡ₚ l2 → foldr Nat.add O l1 = foldr Nat.add O l2.
Proof. induction 1; simpl; lia. Qed.

End enumeration.

(** ** Listing and statistics *)

Section listing.
Import FileManager Datetime.

Lemma list_directory_valid self dir_name label (children : gmap string entry) r :
  r ∈ list_directory self dir_name label children →
  validate_filename (l_filename r) = true ∧
  ∃ e, children !! l_filename r = Some e ∧ is_file e = true.
Proof.
  unfold list_directory, iterdir. rewrite list_elem_of_bind.
  intros ([k e] & Hin & Hk). apply elem_of_map_to_list in Hk.
  destruct (is_file e && validate_filename k) eqn:E; [|inversion Hin].
  apply andb_true_iff in E as [He Hv].
  apply list_elem_of_singleton in Hin as ->. simpl. eauto.
Qed.

Lemma insert_newest_first_perm x l : insert_newest_first x l ≡ₚ x :: l.
Proof.
  induction l as [|y l IH]; simpl; [done|].
  destruct (l_created x <? l_created y); [|done].
  rewrite IH. apply perm_swap.
Qed.

Lemma sort_newest_first_perm l : sort_newest_first l ≡ₚ l.
Proof.
  unfold sort_newest_first. induction l as [|x l IH]; simpl; [done|].
  by rewrite insert_newest_first_perm, IH.
Qed.

Lemma apply_limit_subseteq limit l : apply_limit limit l ⊆ l.
Proof.
  unfold apply_limit. destruct limit as [n|]; [|done].
  repeat case_match; (done || apply subseteq_take).
Qed.

Lemma list_files_valid self date limit now (fs : gmap string node) r :
  r ∈ list_files self date limit now fs →
  validate_filename (l_filename r) = true ∧
  ∃ dir_name children e,
    fs !! dir_name = Some (NDir children) ∧
    children !! l_filename r = Some e ∧ is_file e = true.
Proof.
  unfold list_files. destruct date as [d|].
  - destruct (fs !! get_storage_path (Some d) now) as [[|ch]|] eqn:E.
    + inversion 1.
    + intros Hr%apply_limit_subseteq. rewrite sort_newest_first_perm in Hr.
      apply list_directory_valid in Hr as (Hv & e & He & Hf). split; [done|].
      eauto 10.
    + intros Hr%apply_limit_subseteq. inversion Hr.
  - intros Hr%apply_limit_subseteq. rewrite sort_newest_first_perm in Hr.
    apply list_elem_of_bind in Hr as ([k ch] & Hr & Hk).
    apply elem_of_subdirectories in Hk as [Hk _].
    apply list_directory_valid in Hr as (Hv & e & He & Hf). split; [done|].
    eauto 10.
Qed.

Lemma stats_of_directory (self : t) (fs : gmap string node) dir_name children rest :
  subdirectories fs ≡ₚ (dir_name, children) :: rest →
  total_files (get_storage_stats self fs) =
    (length (regular_files children) +
     foldr Nat.add O ((λ '(_, ch), length (regular_files ch)) <$> rest))%nat ∧
  total_size (get_storage_stats self fs) =
    sum_sizes (regular_files children).*2 +
    sum_sizes ((λ '(_, ch), sum_sizes (regular_files ch).*2) <$> rest).
Proof.
  intros Hp. unfold get_storage_stats. simpl. split.
  - erewrite sum_nat_permutation; [|by rewrite Hp]. simpl. f_equal. f_equal.
    rewrite <- list_fmap_compose. apply list_fmap_ext. by intros _ [? ?] _.
  - erewrite sum_sizes_permutation; [|by rewrite Hp]. simpl.
    change (foldr Z.add 0) with sum_sizes. f_equal. f_equal.
    rewrite <- list_fmap_compose. apply list_fmap_ext. by intros _ [? ?] _.
Qed.

(** C5 (as amended).  [list_files] applies [validate_filename] before it
    reports a file: every record it returns, for any date and limit, is a
    regular file of the tree with a valid name, so a file whose name fails
    validation appears in no listing.  [get_storage_stats] validates no
    name: a regular file added to a subdirectory (other than
    [__pycache__]) raises the file count by one and the byte total by its
    size whatever it is called. *)
Theorem list_files_validates (self : t) (now : Z) (fs : gmap string node) :
  (∀ date limit r,
      r ∈ list_files self date limit now fs →
      validate_filename (l_filename r) = true) ∧
  (∀ date limit file_name r,
      validate_filename file_name = false →
      r ∈ list_files self date limit now fs → l_filename r ≠ file_name) ∧
  (∀ dir_name children file_name data times,
      fs !! dir_name = Some (NDir children) →
      dir_name ≠ "__pycache__" →
      children !! file_name = None →
      let fs' := <[dir_name := NDir (<[file_name := EFile data times]> children)]> fs in
      total_files (get_storage_stats self fs') = S (total_files (get_storage_stats self fs)) ∧
      total_size (get_storage_stats self fs') =
        total_size (get_storage_stats self fs) + Z.of_nat (String.length data)).
Proof.
  split; [|split].
  - intros date limit r Hr. by apply list_files_valid in Hr as [? _].
  - intros date limit file_name r Hv Hr <-.
    apply list_files_valid in Hr as [? _]. congruence.
  - intros dir_name children file_name data times Hd Hne Hn fs'.
    destruct (subdirectories_replace fs dir_name children
                (<[file_name := EFile data times]> children) Hd Hne) as [P1 P2].
    destruct (stats_of_directory self fs _ _ _ P1) as [F1 S1].
    destruct (stats_of_directory self fs' _ _ _ P2) as [F2 S2].
    pose proof (regular_files_insert children file_name (EFile data times) Hn) as Hr.
    simpl in Hr. rewrite F1, F2, S1, S2. split.
    + apply Permutation_length in Hr. rewrite Hr. simpl. lia.
    + assert (Hs : sum_sizes (regular_files (<[file_name := EFile data times]> children)).*2
                   = Z.of_nat (String.length data) + sum_sizes (regular_files children).*2).
      { erewrite sum_sizes_permutation; [|by rewrite Hr]. done. }
      rewrite Hs. lia.
Qed.

Lemma list_files_validates_witness :
  let fs : gmap string node := {[ "2024-03-01" := NDir ∅ ]} in
  let fs' : gmap string node :=
    <["2024-03-01" := NDir (<["x.exe" := EFile "MZ" sample_stamp]> ∅)]> fs in
  (∀ r, r ∈ list_files sample_manager None None sample_now fs' → l_filename r ≠ "x.exe") ∧
  total_files (get_storage_stats sample_manager fs') =
    S (total_files (get_storage_stats sample_manager fs)) ∧
  total_size (get_storage_stats sample_manager fs') =
    total_size (get_storage_stats sample_manager fs) + Z.of_nat (String.length "MZ").
Proof.
  intros fs fs'. split.
  - intros r.
    apply (proj1 (proj2 (list_files_validates sample_manager sample_now fs'))
             None None "x.exe" r).
    reflexivity.
  - apply (proj2 (proj2 (list_files_validates sample_manager sample_now fs))
             "2024-03-01" ∅ "x.exe" "MZ" sample_stamp).
    + reflexivity.
    + discriminate.
    + reflexivity.
Defined.

(** A file named [x.exe] is invisible to [list_files] and counted by
    [get_storage_stats]. *)
Lemma get_storage_stats_counterexample :
  let fs : gmap string node :=
    {[ "2024-03-01" := NDir {[ "x.exe" := EFile "MZ" sample_stamp ]} ]} in
  validate_filename "x.exe" = false ∧
  list_files sample_manager None None sample_now fs = [] ∧
  total_files (get_storage_stats sample_manager fs) = 1%nat ∧
  total_size (get_storage_stats sample_manager fs) = 2 ∧
  directories (get_storage_stats sample_manager fs) = [mk_dir_stats "2024-03-01" 1 2].
Proof. vm_compute. repeat split; reflexivity. Qed.

End listing.

(** ** The retention sweep *)

Section sweep.
Import FileManager Datetime.

Lemma candidates_in_bucket now cutoff dir_name (children : gmap string entry) c :
  c ∈ candidates_in now cutoff dir_name children →
  bucket (c_filepath c) = dir_name ∧ is_Some (strptime_ymd dir_name) ∧
  ∃ data times, children !! c_filename c = Some (EFile data times).
Proof.
  unfold candidates_in. destruct (strptime_ymd dir_name) as [dir_date|]; [|inversion 1].
  destruct (dir_date <? cutoff); [|inversion 1].
  rewrite list_elem_of_bind. intros ([k sz] & Hc & Hk).
  apply list_elem_of_singleton in Hc as ->. simpl.
  apply elem_of_regular_files in Hk as (data & times & Hk & _). eauto.
Qed.

Lemma find_candidates_bucket now cutoff (fs : gmap string node) c :
  c ∈ find_candidates now cutoff fs →
  is_Some (strptime_ymd (bucket (c_filepath c))) ∧
  ∃ children data times,
    fs !! bucket (c_filepath c) = Some (NDir children) ∧
    children !! c_filename c = Some (EFile data times).
Proof.
  unfold find_candidates. rewrite list_elem_of_bind.
  intros ([d ch] & Hc & Hd). apply elem_of_subdirectories in Hd as [Hd _].
  apply candidates_in_bucket in Hc as (-> & Hp & data & times & Hf). eauto 10.
Qed.

Lemma unlink_other (fs : gmap string node) p dir_name :
  bucket p ≠ dir_name → unlink fs p !! dir_name = fs !! dir_name.
Proof.
  intros Hne. unfold unlink. destruct (fs !! bucket p) as [[|ch]|]; try done.
  by rewrite lookup_insert_ne.
Qed.

Lemma delete_files_other files dir_name : ∀ fs : gmap string node,
  (∀ c, c ∈ files → bucket (c_filepath c) ≠ dir_name) →
  (delete_files files fs).2 !! dir_name = fs !! dir_name.
Proof.
  induction files as [|c files IH]; intros fs Hb; [done|]. simpl.
  assert (Hrest : ∀ c', c' ∈ files → bucket (c_filepath c') ≠ dir_name)
    by (intros; apply Hb; by constructor).
  destruct (path_exists fs (c_filepath c)).
  - specialize (IH (unlink fs (c_filepath c)) Hrest).
    destruct (delete_files files (unlink fs (c_filepath c))) as [deleted fs'].
    simpl in *. rewrite IH. apply unlink_other, Hb. constructor.
  - by apply IH.
Qed.

(** The pruning loop removes listed directories that are empty, and
    nothing else. *)
Lemma remove_empty_lookup dirs dir_name : ∀ fs : gmap string node,
  (remove_empty dirs fs).2 !! dir_name = fs !! dir_name ∨
  ((remove_empty dirs fs).2 !! dir_name = None ∧
   ∃ children, (dir_name, children) ∈ dirs ∧ iterdir children = []).
Proof.
  induction dirs as [|[d ch] dirs IH]; intros fs; [by left|]. simpl.
  destruct (iterdir ch) as [|x xs] eqn:E.
  - specialize (IH (delete d fs)).
    destruct (remove_empty dirs (delete d fs)) as [removed fs']. simpl in *.
    destruct IH as [IH|[IH (ch' & Hin & He)]].
    + destruct (decide (d = dir_name)) as [->|Hne].
      * right. rewrite IH, lookup_delete_eq. split; [done|].
        exists ch. split; [constructor | done].
      * left. by rewrite IH, lookup_delete_ne.
    + right. split; [done|]. exists ch'. split; [by constructor | done].
  - destruct (IH fs) as [IH'|[IH' (ch' & Hin & He)]]; [by left|].
    right. split; [done|]. exists ch'. split; [by constructor | done].
Qed.

Lemma log_keeps_directories results log_now (fs : gmap string node) dir_name :
  (dir_name ≠ cleanup_log_file ∨ ∃ children, fs !! dir_name = Some (NDir children)) →
  _log_cleanup_results results log_now fs !! dir_name = fs !! dir_name.
Proof.
  intros H. unfold _log_cleanup_results.
  destruct (fs !! cleanup_log_file) as [[old|ch]|] eqn:E; [| done |].
  - destruct H as [Hne|[ch Hd]]; [by rewrite lookup_insert_ne|].
    destruct (decide (cleanup_log_file = dir_name)) as [<-|Hne]; [congruence|].
    by rewrite lookup_insert_ne.
  - destruct H as [Hne|[ch Hd]]; [by rewrite lookup_insert_ne|].
    destruct (decide (cleanup_log_file = dir_name)) as [<-|Hne]; [congruence|].
    by rewrite lookup_insert_ne.
Qed.

Lemma log_keeps_subdirectories results log_now (fs : gmap string node) :
  subdirectories (_log_cleanup_results results log_now fs) ≡ₚ subdirectories fs.
Proof.
  unfold _log_cleanup_results.
  destruct (fs !! cleanup_log_file) as [[old|ch]|] eqn:E; [| done |].
  - apply subdirectories_write_file. intros ch. congruence.
  - apply subdirectories_write_file. intros ch. congruence.
Qed.

(** C2 (as amended).  For a subdirectory whose name [strptime] rejects:
    none of its files is a deletion candidate, no sweep changes its
    content, and no sweep removes it while it holds anything.  (The
    pruning pass of a real sweep removes every empty subdirectory other
    than [__pycache__], so an empty one may go.) *)
Theorem cleanup_skips_undated (self : t) (dry_run : bool) (now log_now : Z)
    (fs : gmap string node) (dir_name : string) (children : gmap string entry) :
  fs !! dir_name = Some (NDir children) →
  strptime_ymd dir_name = None →
  let fs' := (cleanup_old_files self dry_run now log_now fs).2 in
  (∀ c, c ∈ find_candidates now (minus_days now (max_age_days self)) fs →
        bucket (c_filepath c) ≠ dir_name) ∧
  (children ≠ ∅ → fs' !! dir_name = Some (NDir children)) ∧
  (fs' !! dir_name = Some (NDir children) ∨ (children = ∅ ∧ dry_run = false)).
Proof.
  intros Hd Hp fs'.
  assert (Hc : ∀ c, c ∈ find_candidates now (minus_days now (max_age_days self)) fs →
                    bucket (c_filepath c) ≠ dir_name).
  { intros c [[dt Hdt] _]%find_candidates_bucket E. rewrite E in Hdt. congruence. }
  assert (Hmain : fs' !! dir_name = Some (NDir children) ∨
                  (children = ∅ ∧ dry_run = false)).
  { unfold fs', cleanup_old_files.
    remember (find_candidates now (minus_days now (max_age_days self)) fs) as files.
    destruct dry_run; cbn [negb].
    - left. simpl. rewrite log_keeps_directories by eauto. done.
    - destruct files as [|c rest].
      + left. simpl. rewrite log_keeps_directories by eauto. done.
      + pose proof (delete_files_other (c :: rest) dir_name fs Hc) as Hdel.
        destruct (delete_files (c :: rest) fs) as [deleted fs1]. simpl in Hdel.
        pose proof (remove_empty_lookup (subdirectories fs1) dir_name fs1) as Hrm.
        destruct (remove_empty (subdirectories fs1) fs1) as [removed fs2]. simpl in Hrm.
        cbn [snd].
        destruct Hrm as [Hrm|[Hrm (ch & Hin & He)]].
        * left. rewrite log_keeps_directories; [congruence|].
          right. exists children. congruence.
        * right. apply elem_of_subdirectories in Hin as [Hin _].
          assert (ch = children) as -> by congruence.
          apply map_to_list_empty_iff in He. by split. }
  split; [done|]. split; [|done].
  intros Hne. destruct Hmain as [?|(? & _)]; done.
Qed.

Lemma cleanup_skips_undated_witness :
  let thumbs : gmap string entry := {[ "t.png" := EFile "thumb" sample_stamp ]} in
  let fs : gmap string node :=
    {[ "2000-01-01" := NDir {[ "a.png" := EFile "old" sample_stamp ]};
       "thumbnails" := NDir thumbs ]} in
  (cleanup_old_files sample_manager false sample_now sample_now fs).2 !! "thumbnails"
    = Some (NDir thumbs).
Proof.
  intros thumbs fs.
  apply (cleanup_skips_undated sample_manager false sample_now sample_now fs
           "thumbnails" thumbs).
  - reflexivity.
  - reflexivity.
  - vm_compute. discriminate.
Defined.

(** A real sweep that finds a candidate removes an empty directory whose
    name is not a date. *)
Lemma cleanup_removes_undated_counterexample :
  let fs : gmap string node :=
    {[ "2000-01-01" := NDir {[ "a.png" := EFile "old" sample_stamp ]};
       "misc" := NDir ∅ ]} in
  fs !! "misc" = Some (NDir ∅) ∧
  strptime_ymd "misc" = None ∧
  (cleanup_old_files sample_manager false sample_now sample_now fs).2 !! "misc" = None ∧
  directories_deleted (cleanup_old_files sample_manager false sample_now sample_now fs).1
    = 2%nat.
Proof. vm_compute. repeat split; reflexivity. Qed.

Lemma find_candidates_permutation now cutoff (fs1 fs2 : gmap string node) :
  subdirectories fs1 ≡ₚ subdirectories fs2 →
  find_candidates now cutoff fs1 ≡ₚ find_candidates now cutoff fs2.
Proof. intros H. unfold find_candidates. by rewrite H. Qed.

Lemma cleanup_reports_candidates self dry_run now log_now (fs : gmap string node) :
  files_found (cleanup_old_files self dry_run now log_now fs).1 =
    length (find_candidates now (minus_days now (max_age_days self)) fs).
Proof.
  unfold cleanup_old_files.
  by destruct (match negb dry_run with true => _ | false => _ end) as [[? ?] ?].
Qed.

Lemma cleanup_reports_potential self dry_run now log_now (fs : gmap string node) :
  potential_size_to_free_bytes (cleanup_old_files self dry_run now log_now fs).1 =
    sum_sizes (c_size <$> find_candidates now (minus_days now (max_age_days self)) fs).
Proof.
  unfold cleanup_old_files.
  by destruct (match negb dry_run with true => _ | false => _ end) as [[? ?] ?].
Qed.

(** C6.  A dry-run sweep deletes nothing: it reports no deleted file and
    no deleted directory, every directory of the tree is still there with
    the same content, and nothing but the cleanup log has changed.  A real
    sweep run after it with the same clock reading and retention period
    reports the same number of files found and the same potential bytes
    to free. *)
Theorem cleanup_dry_run_preview (self : t) (now log_now log_now' : Z)
    (fs : gmap string node) :
  let dry := cleanup_old_files self true now log_now fs in
  let real := cleanup_old_files self false now log_now' dry.2 in
  files_deleted dry.1 = O ∧ directories_deleted dry.1 = O ∧
  size_freed_bytes dry.1 = 0 ∧
  (∀ k, k ≠ cleanup_log_file → dry.2 !! k = fs !! k) ∧
  (∀ k children, fs !! k = Some (NDir children) → dry.2 !! k = Some (NDir children)) ∧
  files_found real.1 = files_found dry.1 ∧
  potential_size_to_free_bytes real.1 = potential_size_to_free_bytes dry.1.
Proof.
  intros dry real.
  assert (Hdry : dry.2 = _log_cleanup_results dry.1 log_now fs) by reflexivity.
  assert (Hperm : find_candidates now (minus_days now (max_age_days self)) dry.2
                  ≡ₚ find_candidates now (minus_days now (max_age_days self)) fs).
  { apply find_candidates_permutation. rewrite Hdry. apply log_keeps_subdirectories. }
  split; [done|]. split; [done|]. split; [done|]. split; [|split; [|split]].
  - intros k Hk. rewrite Hdry. apply log_keeps_directories. by left.
  - intros k ch Hk. rewrite Hdry, log_keeps_directories by eauto. done.
  - unfold real. rewrite !cleanup_reports_candidates. by apply Permutation_length.
  - unfold real. rewrite !cleanup_reports_potential.
    apply sum_sizes_permutation. by apply fmap_Permutation.
Qed.

End sweep.

(** ** The scheduling decision *)

Section schedule.
Import FileManager Datetime.
Variable fromisoformat : string → option Z.


End schedule.


(** ** The text of the cleanup log *)

Section log_text.
Import Str.
Local Arguments String.append !s1 s2 : simpl nomatch.

Lemma append_assoc (a b c : string) : (a +:+ b) +:+ c = a +:+ (b +:+ c).
Proof. induction a as [|x a IH]; simpl; [done | by rewrite IH]. Qed.

Lemma append_empty_r (a : string) : a +:+ "" = a.
Proof. induction a as [|x a IH]; simpl; [done | by rewrite IH]. Qed.

Lemma all_chars_app p (a b : string) :
  all_chars p (a +:+ b) = all_chars p a && all_chars p b.
Proof. induction a as [|x a IH]; simpl; [done | by rewrite IH, andb_assoc]. Qed.

Lemma all_chars_impl (p q : ascii → bool) (s : string) :
  (∀ c, p c = true → q c = true) → all_chars p s = true → all_chars q s = true.
Proof.
  intros Hpq. induction s as [|x s IH]; simpl; [done|].
  intros [Hx Hs]%andb_true_iff. rewrite (Hpq x Hx). by apply IH.
Qed.

Lemma is_digit_visible c : is_digit c = true → is_visible c = true.
Proof.
  unfold is_digit, is_visible. intros [H1 H2]%andb_true_iff.
  apply Nat.leb_le in H1, H2. apply andb_true_iff. split; apply Nat.leb_le; lia.
Qed.

Lemma is_visible_text c : is_visible c = true → is_text c = true.
Proof.
  unfold is_text, is_visible. intros [H1 H2]%andb_true_iff.
  apply Nat.leb_le in H1, H2. apply andb_true_iff. split; apply Nat.leb_le; lia.
Qed.

Lemma is_visible_not_space c : is_visible c = true → is_space c = false.
Proof.
  unfold is_space, is_visible. intros [H1 H2]%andb_true_iff.
  apply Nat.leb_le in H1, H2. apply orb_false_iff.
  split; apply andb_false_iff; rewrite !Nat.leb_gt; lia.
Qed.

Lemma is_text_not_break c :
  is_text c = true → eqb_char c "010" = false ∧ eqb_char c "013" = false.
Proof.
  unfold is_text, eqb_char. intros [H1 H2]%andb_true_iff.
  split; apply Ascii.eqb_neq; intros ->; vm_compute in H1; discriminate.
Qed.

Lemma digit_is_digit n : is_digit (digit n) = true.
Proof.
  unfold digit. pose proof (Z.mod_pos_bound n 10 eq_refl) as H.
  assert (Hk : ∃ k, Z.to_nat (n mod 10) = k ∧ (k < 10)%nat) by (eexists; split; [done | lia]).
  destruct Hk as (k & -> & Hk).
  do 10 (destruct k as [|k]; [reflexivity|]). lia.
Qed.

Lemma digits_from_all p fuel : ∀ n acc,
  (∀ c, is_digit c = true → p c = true) →
  all_chars p acc = true → all_chars p (digits_from fuel n acc) = true.
Proof.
  induction fuel as [|fuel IH]; intros n acc Hp Hacc; simpl.
  - by rewrite (Hp _ (digit_is_digit n)).
  - destruct (n <? 10); simpl.
    + by rewrite (Hp _ (digit_is_digit n)).
    + apply IH; [done|]. simpl. by rewrite (Hp _ (digit_is_digit n)).
Qed.

Lemma of_int_text n : all_chars is_text (of_int n) = true.
Proof.
  unfold of_int. destruct (n <? 0); simpl;
    apply digits_from_all; auto using is_digit_visible, is_visible_text.
Qed.

Lemma pad2_visible n : all_chars is_visible (pad2 n) = true.
Proof.
  unfold pad2. cbn [all_chars]. by rewrite !(is_digit_visible _ (digit_is_digit _)).
Qed.

Lemma pad4_visible n : all_chars is_visible (pad4 n) = true.
Proof.
  unfold pad4. cbn [all_chars].
  by rewrite !(is_digit_visible _ (digit_is_digit _)), pad2_visible.
Qed.

Lemma pad6_visible n : all_chars is_visible (pad6 n) = true.
Proof.
  unfold pad6. cbn [all_chars].
  by rewrite !(is_digit_visible _ (digit_is_digit _)), pad4_visible.
Qed.

(** Reading lines. *)
Lemma readlines_from_text body : ∀ cur,
  all_chars is_text body = true →
  readlines_from cur (body +:+ String "010" "") = [cur +:+ body +:+ String "010" ""].
Proof.
  induction body as [|c body IH]; intros cur Hb; simpl.
  - done.
  - simpl in Hb. apply andb_true_iff in Hb as [Hc Hb].
    destruct (is_text_not_break c Hc) as [-> ->].
    rewrite IH by done. by rewrite append_assoc.
Qed.

Lemma readlines_from_after (line : string) (n : nat) : ∀ pre cur,
  (String.length pre ≤ n)%nat →
  ∃ before,
    readlines_from cur (pre +:+ String "010" line) = (before ++ readlines line)%list.
Proof.
  unfold readlines.
  induction n as [|n IH]; intros pre cur Hn.
  - destruct pre; [|simpl in Hn; lia]. simpl. by exists [cur +:+ String "010" ""].
  - destruct pre as [|c pre]; [simpl; by exists [cur +:+ String "010" ""]|].
    simpl in Hn. simpl.
    destruct (eqb_char c "010").
    { destruct (IH pre "" ltac:(lia)) as (b & ->). by eexists (_ :: b). }
    destruct (eqb_char c "013"); [|apply IH; lia].
    destruct pre as [|c' pre]; simpl.
    { by exists [cur +:+ String "010" ""]. }
    destruct (eqb_char c' "010") eqn:E.
    + destruct (IH pre "" ltac:(simpl in Hn; lia)) as (b & ->). by eexists (_ :: b).
    + destruct (IH (String c' pre) "" ltac:(lia)) as (b & Hb).
      simpl in Hb. rewrite E in Hb. rewrite Hb. by eexists (_ :: b).
Qed.

(** The last line of a log that ends with a line feed (or is empty) and
    has just received one more line. *)
Lemma last_line_appended (old body : string) :
  (old = "" ∨ ∃ pre, old = pre +:+ String "010" "") →
  all_chars is_text body = true →
  last (readlines (old +:+ body +:+ String "010" "")) = Some (body +:+ String "010" "").
Proof.
  intros Hold Hb.
  assert (Hl : readlines (body +:+ String "010" "") = [body +:+ String "010" ""]).
  { unfold readlines. by rewrite readlines_from_text. }
  destruct Hold as [->|[pre ->]]; simpl.
  - by rewrite Hl.
  - rewrite append_assoc. simpl.
    destruct (readlines_from_after (body +:+ String "010" "") (String.length pre) pre ""
                ltac:(lia)) as (b & Hr).
    unfold readlines at 1. rewrite Hr, Hl. by rewrite last_snoc.
Qed.

(** Stripping. *)
Lemma rstrip_kept (a b : string) :
  b ≠ "" → rstrip b = b → rstrip (a +:+ b) = a +:+ b ∧ a +:+ b ≠ "".
Proof.
  intros Hne Hb. induction a as [|x a [IH1 IH2]]; simpl; [done|].
  split; [|done]. rewrite IH1. by destruct (a +:+ b).
Qed.

Lemma rstrip_line_feed (a : string) : rstrip (a +:+ String "010" "") = rstrip a.
Proof. induction a as [|x a IH]; simpl; [done | by rewrite IH]. Qed.

Lemma split_first_cons (sep : string) (x : ascii) (s : string) :
  split_first sep (String x s) =
    if starts_with sep (String x s) then "" else String x (split_first sep s).
Proof. reflexivity. Qed.

Lemma split_first_visible (a rest : string) :
  all_chars is_visible a = true → split_first " - " (a +:+ " - " +:+ rest) = a.
Proof.
  induction a as [|x a IH]; intros Ha; [done|].
  cbn [all_chars] in Ha. apply andb_true_iff in Ha as [Hx Ha].
  change (String x a +:+ " - " +:+ rest) with (String x (a +:+ " - " +:+ rest)).
  rewrite split_first_cons.
  assert (E : starts_with " - " (String x (a +:+ " - " +:+ rest)) = false).
  { cbn [starts_with]. unfold eqb_char.
    replace (Ascii.eqb " " x) with false; [done|].
    symmetry. apply Ascii.eqb_neq. intros <-. done. }
  rewrite E. by rewrite IH.
Qed.

End log_text.

(** ** What a sweep writes to the log *)

Section log_line.
Import Str FileManager Datetime.
Local Arguments String.append !s1 s2 : simpl nomatch.

Lemma strftime_ymd_visible dt :
  all_chars is_visible (strftime_ymd dt) = true ∧
  ∃ c s, strftime_ymd dt = String c s.
Proof.
  unfold strftime_ymd. destruct (Calendar.ord2ymd (ordinal dt)) as [[y m] d]. split.
  - rewrite !all_chars_app, pad4_visible, !pad2_visible. reflexivity.
  - unfold pad4. cbn [String.append]. eauto.
Qed.

Lemma isoformat_visible dt :
  all_chars is_visible (isoformat dt) = true ∧ ∃ c s, isoformat dt = String c s.
Proof.
  unfold isoformat. destruct (strftime_ymd_visible dt) as (Hv & c & s & Hs). split.
  - rewrite !all_chars_app, Hv, !pad2_visible.
    destruct (_ =? 0); [reflexivity|].
    rewrite all_chars_app, pad6_visible. reflexivity.
  - rewrite Hs. cbn [String.append]. eauto.
Qed.

Lemma megabytes_repr_text size : all_chars is_text (megabytes_repr size) = true.
Proof.
  unfold megabytes_repr. cbv zeta.
  rewrite !all_chars_app, of_int_text.
  destruct (_ =? 0).
  - cbn [all_chars]. by rewrite (is_visible_text _ (is_digit_visible _ (digit_is_digit _))).
  - rewrite (all_chars_impl _ _ _ is_visible_text (pad2_visible _)). reflexivity.
Qed.

Lemma log_line_text r log_now : all_chars is_text (log_line r log_now) = true.
Proof.
  unfold log_line. destruct (isoformat_visible log_now) as [Hv _].
  rewrite !all_chars_app, (all_chars_impl _ _ _ is_visible_text Hv),
    !of_int_text, megabytes_repr_text.
  by destruct (dry_run r).
Qed.

Lemma rstrip_kept_app (a b : string) :
  b ≠ "" ∧ rstrip b = b → a +:+ b ≠ "" ∧ rstrip (a +:+ b) = a +:+ b.
Proof. intros [H1 H2]. destruct (rstrip_kept a b H1 H2). done. Qed.

Lemma log_line_stripped r log_now :
  strip (log_entry r log_now) = log_line r log_now.
Proof.
  unfold strip, log_entry.
  assert (Hl : lstrip (log_line r log_now +:+ String "010" "")
               = log_line r log_now +:+ String "010" "").
  { unfold log_line. destruct (isoformat_visible log_now) as (Hv & c & s & E).
    rewrite E in *. cbn [all_chars] in Hv. apply andb_true_iff in Hv as [Hc _].
    cbn [String.append lstrip]. by rewrite (is_visible_not_space c Hc). }
  rewrite Hl, rstrip_line_feed.
  unfold log_line. repeat apply rstrip_kept_app. split; [discriminate | reflexivity].
Qed.

Lemma log_line_timestamp r log_now :
  split_first " - " (strip (log_entry r log_now)) = isoformat log_now.
Proof.
  rewrite log_line_stripped. unfold log_line.
  apply split_first_visible, isoformat_visible.
Qed.

Lemma log_line_nonempty r log_now : log_line r log_now ≠ "".
Proof.
  unfold log_line. destruct (isoformat_visible log_now) as (_ & c & s & ->). done.
Qed.

(** No sweep touches the place of the log before it writes its line. *)
Lemma remove_empty_keeps_files dirs file_name : ∀ fs : gmap string node,
  (∀ children, (file_name, children) ∈ dirs → fs !! file_name = Some (NDir children)) →
  (∀ children, fs !! file_name ≠ Some (NDir children)) →
  (remove_empty dirs fs).2 !! file_name = fs !! file_name.
Proof.
  intros fs Hdirs Hnd.
  destruct (remove_empty_lookup dirs file_name fs) as [H|[_ (ch & Hin & _)]]; [done|].
  by destruct (Hnd ch (Hdirs ch Hin)).
Qed.

Lemma cleanup_appends_line self dry now log_now (fs : gmap string node) old :
  (fs !! cleanup_log_file = Some (NFile old) ∨ fs !! cleanup_log_file = None ∧ old = "") →
  (cleanup_old_files self dry now log_now fs).2 !! cleanup_log_file =
    Some (NFile (old +:+ log_entry (cleanup_old_files self dry now log_now fs).1 log_now)).
Proof.
  intros Hold.
  assert (Hnd : ∀ ch, fs !! cleanup_log_file ≠ Some (NDir ch)).
  { intros ch. destruct Hold as [->|[-> _]]; done. }
  assert (Hlog : ∀ r (fs' : gmap string node),
             fs' !! cleanup_log_file = fs !! cleanup_log_file →
             _log_cleanup_results r log_now fs' !! cleanup_log_file
             = Some (NFile (old +:+ log_entry r log_now))).
  { intros r fs' E. unfold _log_cleanup_results. rewrite E.
    destruct Hold as [->|[-> ->]]; by rewrite lookup_insert_eq. }
  unfold cleanup_old_files.
  remember (find_candidates now (minus_days now (max_age_days self)) fs) as files.
  assert (Hc : ∀ c, c ∈ files → bucket (c_filepath c) ≠ cleanup_log_file).
  { subst files. intros c [[dt Hdt] _]%find_candidates_bucket E.
    rewrite E in Hdt. discriminate. }
  destruct dry; cbn [negb]; [by apply Hlog|].
  destruct files as [|c rest]; [by apply Hlog|].
  pose proof (delete_files_other (c :: rest) cleanup_log_file fs Hc) as Hdel.
  destruct (delete_files (c :: rest) fs) as [deleted fs1]. simpl in Hdel.
  pose proof (remove_empty_keeps_files (subdirectories fs1) cleanup_log_file fs1) as Hrm.
  destruct (remove_empty (subdirectories fs1) fs1) as [removed fs2]. simpl in Hrm.
  cbn [fst snd]. apply Hlog. rewrite Hrm; [done| |].
  - intros ch Hin. by apply elem_of_subdirectories in Hin as [? _].
  - intros ch. rewrite Hdel. apply Hnd.
Qed.

End log_line.

(** ** Dry runs and the schedule *)

Section dry_run_schedule.
Import FileManager Datetime.
Variable fromisoformat : string → option Z.


End dry_run_schedule.


(** ** The calendar *)

Section calendar.
Import Calendar.

Lemma ord2year_spec n :
  1 ≤ n →
  let '(y, r) := ord2year n in
  days_before_year y + r + 1 = n ∧
  0 ≤ r < 365 + (if is_leap y then 1 else 0) ∧ 1 ≤ y.
Proof.
  intros Hn. unfold ord2year, days_before_year, is_leap. cbv zeta.
  destruct (_ || _) eqn:E.
  - apply orb_true_iff in E. rewrite !Z.eqb_eq in E.
    destruct (_ && _) eqn:L;
      [|apply andb_false_iff in L;
        rewrite orb_false_iff, negb_false_iff, !Z.eqb_neq, Z.eqb_eq in L];
      Z.div_mod_to_equations; lia.
  - apply orb_false_iff in E. rewrite !Z.eqb_neq in E.
    destruct (_ && _) eqn:L;
      [apply andb_true_iff in L;
       rewrite orb_true_iff, negb_true_iff, !Z.eqb_neq, !Z.eqb_eq in L
      |apply andb_false_iff in L;
       rewrite orb_false_iff, negb_false_iff, !Z.eqb_neq, Z.eqb_eq in L];
      Z.div_mod_to_equations; lia.
Qed.

(** The month table, checked day by day for both kinds of year. *)
Lemma month_of_spec (leap : bool) (r : Z) :
  0 ≤ r < 365 + (if leap then 1 else 0) →
  let '(m, d) := month_of 11 leap 1 r in
  1 ≤ m ≤ 12 ∧ 1 ≤ d ≤ month_length leap m ∧
  days_before leap (Z.to_nat (m - 1)) + d = r + 1.
Proof.
  intros Hr.
  assert (Hall : ∀ leap',
    forallb (λ k : nat,
      let '(m, d) := month_of 11 leap' 1 (Z.of_nat k) in
      (1 <=? m) && (m <=? 12) && (1 <=? d) && (d <=? month_length leap' m) &&
      (days_before leap' (Z.to_nat (m - 1)) + d =? Z.of_nat k + 1))
      (seq 0 (365 + if leap' then 1 else 0)) = true).
  { intros []; vm_compute; reflexivity. }
  specialize (Hall leap). rewrite forallb_forall in Hall.
  specialize (Hall (Z.to_nat r)). rewrite Z2Nat.id in Hall by lia.
  destruct (month_of 11 leap 1 r) as [m d].
  rewrite !andb_true_iff, !Z.leb_le, Z.eqb_eq in Hall.
  assert (Hin : In (Z.to_nat r) (seq 0 (365 + (if leap then 1 else 0))))
    by (apply in_seq; destruct leap; lia).
  specialize (Hall Hin). lia.
Qed.

Lemma ord2ymd_spec n :
  min_ordinal ≤ n →
  let '(y, m, d) := ord2ymd n in
  ymd2ord y m d = n ∧ 1 ≤ y ∧ (n ≤ max_ordinal → y ≤ 9999) ∧
  1 ≤ m ≤ 12 ∧ 1 ≤ d ≤ 31.
Proof.
  unfold min_ordinal, max_ordinal. intros Hn. unfold ord2ymd.
  pose proof (ord2year_spec n Hn) as Hy. destruct (ord2year n) as [y r].
  destruct Hy as (Hsum & Hr & Hy1).
  pose proof (month_of_spec (is_leap y) r Hr) as Hm.
  destruct (month_of 11 (is_leap y) 1 r) as [m d].
  destruct Hm as (Hm & Hd & Hbefore).
  unfold ymd2ord, days_before_month. repeat split; try lia.
  - intros Hmax. unfold days_before_year in Hsum. Z.div_mod_to_equations. lia.
  - assert (month_length (is_leap y) m ≤ 31); [|lia].
    unfold month_length. repeat case_match; lia.
Qed.

(** Distinct days have distinct dates. *)
Lemma ord2ymd_inj n1 n2 :
  min_ordinal ≤ n1 → min_ordinal ≤ n2 → ord2ymd n1 = ord2ymd n2 → n1 = n2.
Proof.
  intros H1 H2 E.
  pose proof (ord2ymd_spec n1 H1) as S1. pose proof (ord2ymd_spec n2 H2) as S2.
  rewrite E in S1. destruct (ord2ymd n2) as [[y m] d].
  destruct S1 as [<- _]. by destruct S2 as [<- _].
Qed.

End calendar.

(** ** Day-bucket names *)

Section bucket_names.
Import Str Calendar Datetime.
Local Arguments String.append !s1 s2 : simpl nomatch.

Lemma digit_inj a b : digit a = digit b → a mod 10 = b mod 10.
Proof.
  unfold digit. intros E. apply (f_equal nat_of_ascii) in E.
  pose proof (Z.mod_pos_bound a 10 eq_refl). pose proof (Z.mod_pos_bound b 10 eq_refl).
  rewrite !nat_ascii_embedding in E by lia. lia.
Qed.

Lemma pad2_inj a b :
  0 ≤ a < 100 → 0 ≤ b < 100 → pad2 a = pad2 b → a = b.
Proof.
  intros Ha Hb. unfold pad2. intros [= E1 E2].
  apply digit_inj in E1, E2. Z.div_mod_to_equations. lia.
Qed.

Lemma pad4_inj a b :
  0 ≤ a < 10000 → 0 ≤ b < 10000 → pad4 a = pad4 b → a = b.
Proof.
  intros Ha Hb. unfold pad4, pad2. intros [= E1 E2 E3 E4].
  apply digit_inj in E1, E2, E3, E4. Z.div_mod_to_equations. lia.
Qed.

Lemma strftime_ymd_ordinal a b :
  ordinal a = ordinal b → strftime_ymd a = strftime_ymd b.
Proof. unfold strftime_ymd. by intros ->. Qed.

(** Within the range of [datetime], two moments with the same
    [%Y-%m-%d] text fall on the same day. *)
Lemma strftime_ymd_inj a b :
  representable a → representable b →
  strftime_ymd a = strftime_ymd b → ordinal a = ordinal b.
Proof.
  unfold representable, strftime_ymd. intros [Ha1 Ha2] [Hb1 Hb2] E.
  apply ord2ymd_inj; [done | done |].
  pose proof (ord2ymd_spec (ordinal a) Ha1) as Sa.
  pose proof (ord2ymd_spec (ordinal b) Hb1) as Sb.
  destruct (ord2ymd (ordinal a)) as [[y1 m1] d1].
  destruct (ord2ymd (ordinal b)) as [[y2 m2] d2].
  destruct Sa as (_ & ? & Hy1 & ? & ?). destruct Sb as (_ & ? & Hy2 & ? & ?).
  specialize (Hy1 Ha2). specialize (Hy2 Hb2).
  unfold pad4 in E. cbn [String.append] in E.
  injection E as E1 E2 E3 E4 E5 E6 E7 E8.
  apply digit_inj in E1, E2, E3, E4, E5, E6, E7, E8.
  assert (y1 = y2) by (Z.div_mod_to_equations; lia).
  assert (m1 = m2) by (Z.div_mod_to_equations; lia).
  assert (d1 = d2) by (Z.div_mod_to_equations; lia).
  congruence.
Qed.

Lemma ordinal_minus_days dt k : ordinal (minus_days dt k) = ordinal dt - k.
Proof.
  unfold ordinal, minus_days.
  replace (dt - k * day_us) with (dt + (- k) * day_us) by lia.
  rewrite Z.div_add by done. lia.
Qed.

End bucket_names.

(** ** Resolving a saved file *)

Section resolve.
Import FileManager Datetime.

Lemma find_first_inv {A} (f : A → bool) (l : list A) (x : A) :
  List.find f l = Some x →
  ∃ i, l !! i = Some x ∧ f x = true ∧
       ∀ j y, (j < i)%nat → l !! j = Some y → f y = false.
Proof.
  induction l as [|a l IH]; [done|]. simpl. destruct (f a) eqn:E.
  - intros [= <-]. exists O. repeat split; [done|]. intros; lia.
  - intros (i & Hi & Hx & Hb)%IH. exists (S i). repeat split; [done..|].
    intros [|j] y Hj Hy; simpl in Hy; [congruence|]. apply (Hb j); [lia | done].
Qed.

(** The seven paths tried without a date, newest bucket first. *)
Lemma recent_paths_lookup filename now (i : nat) p :
  List.map (λ days_back : nat,
              mk_path (get_storage_path (Some (minus_days now (Z.of_nat days_back))) now)
                      filename) (seq 0 7) !! i = Some p ↔
  (i < 7)%nat ∧ p = mk_path (strftime_ymd (minus_days now (Z.of_nat i))) filename.
Proof.
  change (List.map ?g ?l) with (g <$> l).
  rewrite list_lookup_fmap. unfold get_storage_path. simpl default. split.
  - destruct (seq 0 7 !! i) as [k|] eqn:E; [|done].
    apply lookup_seq in E as [-> ?]. intros [= <-]. done.
  - intros [Hi ->]. rewrite (proj2 (lookup_seq 0 7 i i)); [done | lia].
Qed.

Lemma get_file_path_recent filename now (fs : gmap string node) p :
  get_file_path filename None now fs = Some p ↔
  ∃ days_back : nat,
    (days_back < 7)%nat ∧
    p = mk_path (strftime_ymd (minus_days now (Z.of_nat days_back))) filename ∧
    path_exists fs p = true ∧
    ∀ j : nat, (j < days_back)%nat →
      path_exists fs (mk_path (strftime_ymd (minus_days now (Z.of_nat j))) filename) = false.
Proof.
  unfold get_file_path. split.
  - intros (i & Hi & Hp & Hb)%find_first_inv.
    apply recent_paths_lookup in Hi as [Hi ->].
    exists i. repeat split; [done..|].
    intros j Hj. apply (Hb j); [done|]. apply recent_paths_lookup. split; [lia | done].
  - intros (i & Hi & -> & Hp & Hb).
    apply (find_first _ _ i); [by apply recent_paths_lookup | done |].
    intros j y Hj [_ ->]%recent_paths_lookup. by apply Hb.
Qed.



End resolve.

(** * Further properties *)

(** ** The rate limiter, call by call *)

Section limiter_steps.
Import RateLimiter.

Lemma popleft_while_twice c1 c2 l :
  c1 ≤ c2 → popleft_while c2 (popleft_while c1 l) = popleft_while c2 l.
Proof.
  intros Hc. induction l as [|x l IH]; simpl; [done|].
  destruct (x <? c1) eqn:E1.
  - apply Z.ltb_lt in E1. replace (x <? c2) with true; [done|].
    symmetry. apply Z.ltb_lt. lia.
  - done.
Qed.

Lemma popleft_while_head cutoff l x rest :
  popleft_while cutoff l = x :: rest → cutoff ≤ x.
Proof.
  induction l as [|y l IH]; simpl; [done|].
  destruct (y <? cutoff) eqn:E; [done|]. intros [= -> _]. by apply Z.ltb_ge.
Qed.

(** One call with a single clock reading, seen through the caller's two
    windows. *)
Lemma is_allowed_same_clock t c s :
  let minute := popleft_while (t - seconds 60) (getitem (minute_requests s) c) in
  let hour := popleft_while (t - seconds 3600) (getitem (hour_requests s) c) in
  let r := is_allowed t t c s in
  requests_per_minute r.2 = requests_per_minute s ∧
  requests_per_hour r.2 = requests_per_hour s ∧
  if Z.of_nat (length minute) >=? requests_per_minute s then
    r.1 = (false, Some per_minute_message) ∧
    getitem (minute_requests r.2) c = minute ∧
    (getitem (hour_requests r.2) c = getitem (hour_requests s) c ∨
     getitem (hour_requests r.2) c = hour)
  else if Z.of_nat (length hour) >=? requests_per_hour s then
    r.1 = (false, Some per_hour_message) ∧
    getitem (minute_requests r.2) c = minute ∧
    getitem (hour_requests r.2) c = hour
  else
    r.1 = (true, None) ∧
    getitem (minute_requests r.2) c = (minute ++ [t])%list ∧
    getitem (hour_requests r.2) c = (hour ++ [t])%list.
Proof.
  intros minute hour r. unfold r, is_allowed.
  destruct (cleanup_windows t s c) as (Em & Eh & Vm & Vh).
  set (s1 := _cleanup_old_requests t s) in *.
  assert (Hm : popleft_while (t - seconds 60) (getitem (minute_requests s1) c) = minute).
  { destruct Vm as [->| ->]; [done | apply popleft_while_idem]. }
  assert (Hh : popleft_while (t - seconds 3600) (getitem (hour_requests s1) c) = hour).
  { destruct Vh as [->| ->]; [done | apply popleft_while_idem]. }
  rewrite Hm, Hh, Em, Eh.
  destruct (Z.of_nat (length minute) >=? requests_per_minute s);
    [|destruct (Z.of_nat (length hour) >=? requests_per_hour s)];
    simpl; rewrite ?getitem_insert, ?decide_True by done; repeat split; done.
Qed.

Lemma is_allowed_verdict t c s :
  (is_allowed t t c s).1 =
    if Z.of_nat (length (popleft_while (t - seconds 60) (getitem (minute_requests s) c)))
       >=? requests_per_minute s
    then (false, Some per_minute_message)
    else if Z.of_nat (length (popleft_while (t - seconds 3600)
                                (getitem (hour_requests s) c)))
            >=? requests_per_hour s
    then (false, Some per_hour_message)
    else (true, None).
Proof.
  pose proof (is_allowed_same_clock t c s) as H. simpl in H.
  destruct H as (_ & _ & H). repeat case_match; by destruct H.
Qed.

(** What a call by [c] does to a different client's windows. *)
Lemma is_allowed_other t c c' s :
  c ≠ c' →
  let s' := (is_allowed t t c s).2 in
  (getitem (minute_requests s') c' = getitem (minute_requests s) c' ∨
   getitem (minute_requests s') c' =
     popleft_while (t - seconds 60) (getitem (minute_requests s) c')) ∧
  (getitem (hour_requests s') c' = getitem (hour_requests s) c' ∨
   getitem (hour_requests s') c' =
     popleft_while (t - seconds 3600) (getitem (hour_requests s) c')).
Proof.
  intros Hne. destruct (cleanup_windows t s c') as (_ & _ & Vm & Vh).
  unfold is_allowed. set (s1 := _cleanup_old_requests t s) in *.
  repeat case_match; simpl; rewrite ?getitem_insert, ?decide_False by done; done.
Qed.

End limiter_steps.

(** ** The rate limiter: isolation, bounds, the periodic sweep *)

Section limiter_properties.
Import RateLimiter.



Lemma is_allowed_within_limits t c s :
  0 ≤ requests_per_minute s → 0 ≤ requests_per_hour s →
  (∀ c', Z.of_nat (length (getitem (minute_requests s) c')) ≤ requests_per_minute s ∧
         Z.of_nat (length (getitem (hour_requests s) c')) ≤ requests_per_hour s) →
  let s' := (is_allowed t t c s).2 in
  ∀ c', Z.of_nat (length (getitem (minute_requests s') c')) ≤ requests_per_minute s' ∧
        Z.of_nat (length (getitem (hour_requests s') c')) ≤ requests_per_hour s'.
Proof.
  intros Hpm Hph Hinv s' c'. unfold s'.
  pose proof (is_allowed_same_clock t c s) as H. simpl in H.
  destruct H as (Em & Eh & H). rewrite Em, Eh.
  destruct (Hinv c') as [Bm Bh].
  pose proof (popleft_while_length (t - seconds 60) (getitem (minute_requests s) c')) as Lm.
  pose proof (popleft_while_length (t - seconds 3600) (getitem (hour_requests s) c')) as Lh.
  destruct (decide (c = c')) as [<-|Hne].
  - destruct (_ >=? requests_per_minute s) eqn:E1;
      [|destruct (_ >=? requests_per_hour s) eqn:E2].
    + destruct H as (_ & -> & [->| ->]); lia.
    + destruct H as (_ & -> & ->). lia.
    + destruct H as (_ & -> & ->). rewrite !length_app. simpl. lia.
  - destruct (is_allowed_other t c c' s Hne) as [Vm Vh]. simpl in Vm, Vh.
    destruct Vm as [->| ->], Vh as [->| ->]; lia.
Qed.

(** X2.  Whatever requests arrive, from whichever clients, no window ever
    holds more timestamps than its limit: a limiter created with
    non-negative limits keeps at most [requests_per_minute] entries in every
    minute window and at most [requests_per_hour] in every hour window. *)
Theorem serve_within_limits (requests : list (Z * string)) (per_minute per_hour now : Z)
    (c : string) :
  0 ≤ per_minute → 0 ≤ per_hour →
  let s := (serve requests (init per_minute per_hour now)).2 in
  Z.of_nat (length (getitem (minute_requests s) c)) ≤ per_minute ∧
  Z.of_nat (length (getitem (hour_requests s) c)) ≤ per_hour.
Proof.
  intros Hpm Hph.
  assert (Hgen : ∀ s0,
    0 ≤ requests_per_minute s0 → 0 ≤ requests_per_hour s0 →
    (∀ c', Z.of_nat (length (getitem (minute_requests s0) c')) ≤ requests_per_minute s0 ∧
           Z.of_nat (length (getitem (hour_requests s0) c')) ≤ requests_per_hour s0) →
    let s := (serve requests s0).2 in
    requests_per_minute s = requests_per_minute s0 ∧
    requests_per_hour s = requests_per_hour s0 ∧
    ∀ c', Z.of_nat (length (getitem (minute_requests s) c')) ≤ requests_per_minute s ∧
          Z.of_nat (length (getitem (hour_requests s) c')) ≤ requests_per_hour s).
  { induction requests as [|[t c0] requests IH]; intros s0 H1 H2 Hinv; [done|].
    simpl.
    pose proof (is_allowed_within_limits t c0 s0 H1 H2 Hinv) as Hstep.
    destruct (is_allowed_same_clock t c0 s0) as (Em & Eh & _).
    destruct (is_allowed t t c0 s0) as [r s1]. simpl in *.
    specialize (IH s1). destruct (serve requests s1) as [rs s2]. simpl in *.
    rewrite <- Em, <- Eh. apply IH; [lia | lia | done]. }
  destruct (Hgen (init per_minute per_hour now) Hpm Hph) as (Em & Eh & Hall).
  { intros c'. unfold getitem. simpl. rewrite lookup_empty. simpl. lia. }
  intros s. specialize (Hall c). simpl in Em, Eh. fold s in Em, Eh, Hall.
  by rewrite Em, Eh in Hall.
Qed.

Lemma serve_within_limits_witness :
  let s := (serve [(0, "a"); (seconds 1, "a"); (seconds 2, "b"); (seconds 3, "a")]
              (init 2 5 0)).2 in
  Z.of_nat (length (getitem (minute_requests s) "a")) ≤ 2 ∧
  Z.of_nat (length (getitem (hour_requests s) "a")) ≤ 5.
Proof.
  apply (serve_within_limits
           [(0, "a"); (seconds 1, "a"); (seconds 2, "b"); (seconds 3, "a")] 2 5 0 "a");
    lia.
Defined.

(** X3.  The periodic sweep runs only when at least 300 s have passed since
    the last one; when it runs, it leaves no empty deque behind, every
    deque it keeps starts with a timestamp inside its horizon, and it
    records the time of the sweep. *)
Theorem cleanup_old_requests_prunes (now : Z) (s : t) :
  (now - last_cleanup s < seconds 300 → _cleanup_old_requests now s = s) ∧
  (seconds 300 ≤ now - last_cleanup s →
   let s' := _cleanup_old_requests now s in
   last_cleanup s' = now ∧
   (∀ c l, minute_requests s' !! c = Some l →
           ∃ x rest, l = x :: rest ∧ now - seconds 60 ≤ x) ∧
   (∀ c l, hour_requests s' !! c = Some l →
           ∃ x rest, l = x :: rest ∧ now - seconds 3600 ≤ x)).
Proof.
  unfold _cleanup_old_requests, cleanup_interval. split.
  - intros H. apply Z.ltb_lt in H. by rewrite H.
  - intros H. apply Z.ltb_ge in H. rewrite H. simpl. split; [done|].
    split; intros c l; rewrite lookup_omap; intros Hl;
      apply bind_Some in Hl as (l0 & _ & Hl); unfold trim_or_delete in Hl;
      destruct (popleft_while _ l0) as [|x rest] eqn:E; try done;
      injection Hl as <-; exists x, rest; (split; [done|]);
      by apply popleft_while_head in E.
Qed.

Lemma cleanup_old_requests_prunes_witness :
  let s := mk 10 100 {[ "a" := [seconds 10]; "b" := [seconds 390] ]}
              {[ "a" := [seconds 10]; "b" := [seconds 390] ]} 0 in
  _cleanup_old_requests (seconds 200) s = s ∧
  last_cleanup (_cleanup_old_requests (seconds 400) s) = seconds 400 ∧
  minute_requests (_cleanup_old_requests (seconds 400) s) !! "a" = None.
Proof.
  intros s. split; [|split].
  - apply (proj1 (cleanup_old_requests_prunes (seconds 200) s)). vm_compute. reflexivity.
  - apply (proj2 (cleanup_old_requests_prunes (seconds 400) s)). vm_compute. discriminate.
  - reflexivity.
Defined.

End limiter_properties.

(** ** The rate limiter against the sliding-window rule *)

Section limiter_reference.
Import RateLimiter.

Lemma filter_expired cutoff (l : list Z) :
  Forall (λ x, x < cutoff) l → List.filter (λ x, cutoff <=? x) l = [].
Proof.
  induction 1 as [|x l Hx _ IH]; simpl; [done|].
  replace (cutoff <=? x) with false; [done|]. symmetry. apply Z.leb_gt. lia.
Qed.

Lemma filter_fresh cutoff (l : list Z) :
  Forall (λ x, cutoff ≤ x) l → List.filter (λ x, cutoff <=? x) l = l.
Proof.
  induction 1 as [|x l Hx _ IH]; simpl; [done|].
  replace (cutoff <=? x) with true; [by rewrite IH|]. symmetry. apply Z.leb_le. lia.
Qed.

(** On an ordered deque, dropping the expired prefix keeps exactly the
    timestamps inside the horizon. *)
Lemma popleft_while_sorted cutoff (l : list Z) :
  StronglySorted Z.le l → popleft_while cutoff l = List.filter (λ x, cutoff <=? x) l.
Proof.
  induction 1 as [|x l Hs IH Hx]; simpl; [done|].
  destruct (x <? cutoff) eqn:E.
  - apply Z.ltb_lt in E. replace (cutoff <=? x) with false; [done|].
    symmetry. apply Z.leb_gt. lia.
  - apply Z.ltb_ge in E. replace (cutoff <=? x) with true by (symmetry; by apply Z.leb_le).
    rewrite filter_fresh; [done|]. eapply Forall_impl; [exact Hx|]. simpl. intros; lia.
Qed.

Lemma sorted_snoc (l : list Z) (t : Z) :
  StronglySorted Z.le l → Forall (λ x, x ≤ t) l → StronglySorted Z.le (l ++ [t]).
Proof.
  induction 1 as [|x l Hs IH Hx]; intros Ht; simpl.
  - repeat constructor.
  - apply Forall_cons in Ht as [Hxt Ht]. constructor; [by apply IH|].
    apply Forall_app. split; [done|]. by repeat constructor.
Qed.

Lemma sorted_suffix (d w : list Z) :
  StronglySorted Z.le (d ++ w) → StronglySorted Z.le w.
Proof. induction d as [|x d IH]; simpl; [done|]. inversion 1; auto. Qed.

(** The number of admitted requests inside the horizon, read off a
    window that has lost only expired entries. *)
Lemma window_counts_recent span now tlow (history dropped window : list Z) :
  StronglySorted Z.le history →
  history = (dropped ++ window)%list →
  Forall (λ x, x < tlow - span) dropped → tlow ≤ now →
  length (popleft_while (now - span) window) = recent span now history.
Proof.
  intros Hs -> Hd Hlow. unfold recent.
  rewrite popleft_while_sorted by (by eapply sorted_suffix).
  rewrite List.filter_app, (filter_expired (now - span) dropped).
  - done.
  - eapply Forall_impl; [exact Hd|]. simpl. intros; lia.
Qed.

Lemma window_after_trim span now tlow (history dropped window : list Z) :
  history = (dropped ++ window)%list →
  Forall (λ x, x < tlow - span) dropped → tlow ≤ now →
  ∃ dropped',
    history = (dropped' ++ popleft_while (now - span) window)%list ∧
    Forall (λ x, x < now - span) dropped'.
Proof.
  intros -> Hd Hlow.
  destruct (popleft_while_split (now - span) window) as (d & Hw & Hf).
  exists (dropped ++ d)%list. split.
  - rewrite <- app_assoc. by rewrite <- Hw.
  - apply Forall_app. split; [|done].
    eapply Forall_impl; [exact Hd|]. simpl. intros; lia.
Qed.

Lemma calls_follow_reference c times : ∀ s history dm dh tlow,
  StronglySorted Z.le history → StronglySorted Z.le times →
  Forall (λ x, x ≤ tlow) history → Forall (λ x, tlow ≤ x) times →
  history = (dm ++ getitem (minute_requests s) c)%list →
  Forall (λ x, x < tlow - seconds 60) dm →
  history = (dh ++ getitem (hour_requests s) c)%list →
  Forall (λ x, x < tlow - seconds 3600) dh →
  (calls times c s).1 =
    reference_sliding_window (requests_per_minute s) (requests_per_hour s) history times.
Proof.
  induction times as [|t times IH];
    intros s history dm dh tlow Hh Ht Hhl Htl Em Fm Eh Fh; [done|].
  apply Forall_cons in Htl as [Hlow Htl].
  apply StronglySorted_inv in Ht as [Ht Htt].
  cbn [calls reference_sliding_window].
  pose proof (is_allowed_same_clock t c s) as Hstep. cbv zeta in Hstep.
  rewrite (window_counts_recent _ _ _ _ _ _ Hh Em Fm Hlow) in Hstep.
  rewrite (window_counts_recent _ _ _ _ _ _ Hh Eh Fh Hlow) in Hstep.
  destruct (window_after_trim _ _ _ _ _ _ Em Fm Hlow) as (dm' & Em' & Fm').
  destruct (window_after_trim _ _ _ _ _ _ Eh Fh Hlow) as (dh' & Eh' & Fh').
  destruct (is_allowed t t c s) as [r s1]. cbn [fst snd] in Hstep.
  destruct Hstep as (Epm & Eph & Hstep).
  assert (Hhl' : Forall (λ x, x ≤ t) history).
  { eapply Forall_impl; [exact Hhl|]. simpl. intros; lia. }
  specialize (IH s1). destruct (calls times c s1) as [rs s2]. cbn [fst] in *.
  rewrite Epm, Eph in IH.
  destruct (_ >=? requests_per_minute s);
    [|destruct (_ >=? requests_per_hour s)].
  - destruct Hstep as (-> & Vm & Vh). f_equal.
    destruct Vh as [Vh|Vh].
    + apply (IH history dm' dh t); try done; rewrite ?Vm, ?Vh; try done.
      eapply Forall_impl; [exact Fh|]. simpl. intros; lia.
    + apply (IH history dm' dh' t); try done; by rewrite ?Vm, ?Vh.
  - destruct Hstep as (-> & Vm & Vh). f_equal.
    apply (IH history dm' dh' t); try done; by rewrite ?Vm, ?Vh.
  - destruct Hstep as (-> & Vm & Vh). f_equal.
    apply (IH (history ++ [t])%list dm' dh' t); try done.
    + by apply sorted_snoc.
    + apply Forall_app. split; [done|]. repeat constructor. lia.
    + rewrite Vm, app_assoc. by rewrite <- Em'.
    + rewrite Vh, app_assoc. by rewrite <- Eh'.
Qed.



End limiter_reference.

(** ** Response headers *)

Section response_headers.
Import Headers.

Lemma add_performance_headers_keeps endpoint (headers : gmap string string) k :
  k ≠ "Cache-Control" → k ≠ "Pragma" → k ≠ "Expires" →
  add_performance_headers endpoint headers !! k = headers !! k.
Proof.
  intros H1 H2 H3. unfold add_performance_headers.
  repeat case_match; by rewrite ?lookup_insert_ne by done.
Qed.

Lemma add_cors_headers_keeps enable allowed origin (headers : gmap string string) k :
  k ≠ "Access-Control-Allow-Origin" → k ≠ "Access-Control-Allow-Methods" →
  k ≠ "Access-Control-Allow-Headers" → k ≠ "Access-Control-Max-Age" →
  add_cors_headers enable allowed origin headers !! k = headers !! k.
Proof.
  intros H1 H2 H3 H4. unfold add_cors_headers.
  repeat case_match; by rewrite ?lookup_insert_ne by done.
Qed.

(** X5.  Whatever the response carried before, whatever the endpoint, the
    origin and the CORS settings, the response that leaves [after_request]
    has the five security headers with their fixed values and a
    [Cache-Control] header: the later steps never overwrite what
    [add_security_headers] set. *)
Theorem after_request_security_headers (enable_cors : bool) (allowed_origins : list string)
    (endpoint origin : option string) (headers : gmap string string) :
  let h := after_request enable_cors allowed_origins endpoint origin headers in
  h !! "X-Content-Type-Options" = Some "nosniff" ∧
  h !! "X-Frame-Options" = Some "DENY" ∧
  h !! "X-XSS-Protection" = Some "1; mode=block" ∧
  h !! "Referrer-Policy" = Some "strict-origin-when-cross-origin" ∧
  h !! "Content-Security-Policy" = Some content_security_policy ∧
  is_Some (h !! "Cache-Control").
Proof.
  intros h. unfold h, after_request.
  repeat split;
    try (rewrite add_cors_headers_keeps, add_performance_headers_keeps by done;
         unfold add_security_headers;
         by rewrite ?lookup_insert_ne, ?lookup_insert_eq by done).
  rewrite add_cors_headers_keeps by done.
  unfold add_performance_headers.
  repeat case_match; rewrite ?lookup_insert_ne by done; rewrite lookup_insert_eq; eauto.
Qed.

(** X6.  With a non-empty list of allowed origins, [add_cors_headers] adds
    CORS headers only for a request whose [Origin] is in the list: for any
    other request, and whenever CORS is disabled, the response is
    unchanged; for a listed non-empty origin the
    [Access-Control-Allow-Origin] header is that origin. *)
Theorem add_cors_headers_allow_list (enable_cors : bool) (allowed_origins : list string)
    (origin : option string) (headers : gmap string string) :
  (enable_cors = false → add_cors_headers enable_cors allowed_origins origin headers = headers) ∧
  (allowed_origins ≠ [] →
   (∀ o, origin = Some o → o ∉ allowed_origins) →
   add_cors_headers enable_cors allowed_origins origin headers = headers) ∧
  (∀ o, enable_cors = true → origin = Some o → o ∈ allowed_origins → o ≠ "" →
        add_cors_headers enable_cors allowed_origins origin headers
          !! "Access-Control-Allow-Origin" = Some o).
Proof.
  unfold add_cors_headers. split; [|split].
  - by intros ->.
  - intros Hne Hout. destruct enable_cors; [|done].
    destruct allowed_origins as [|a l]; [done|].
    destruct origin as [o|]; [|done].
    rewrite bool_decide_eq_false_2; [done|]. by apply Hout.
  - intros o -> -> Hin Hne.
    assert (Hl : match allowed_origins with
                 | [] => true
                 | _ :: _ => bool_decide (o ∈ allowed_origins)
                 end = true).
    { destruct allowed_origins; [done|]. by apply bool_decide_eq_true_2. }
    rewrite Hl. rewrite !lookup_insert_ne by done. rewrite lookup_insert_eq.
    by destruct o.
Qed.

Lemma add_cors_headers_allow_list_witness :
  add_cors_headers true ["https://a.example"] (Some "https://evil.example") ∅ = ∅ ∧
  add_cors_headers true ["https://a.example"] (Some "https://a.example") ∅
    !! "Access-Control-Allow-Origin" = Some "https://a.example".
Proof.
  split.
  - apply (proj1 (proj2 (add_cors_headers_allow_list true ["https://a.example"]
                           (Some "https://evil.example") ∅))); [done|].
    intros o [= <-]. rewrite list_elem_of_singleton. discriminate.
  - apply (proj2 (proj2 (add_cors_headers_allow_list true ["https://a.example"]
                           (Some "https://a.example") ∅)));
      [done | done | by apply list_elem_of_singleton | discriminate].
Defined.

End response_headers.

(** ** Listings: order, limit, completeness *)

Section listing_order.
Import FileManager Datetime.

Lemma insert_newest_first_sorted x l :
  StronglySorted newer_first l → StronglySorted newer_first (insert_newest_first x l).
Proof.
  induction 1 as [|y l Hs IH Hy]; simpl; [repeat constructor|].
  destruct (l_created x <? l_created y) eqn:E.
  - apply Z.ltb_lt in E. constructor; [done|].
    rewrite insert_newest_first_perm. constructor; [unfold newer_first; lia | done].
  - apply Z.ltb_ge in E. constructor; [by constructor|].
    constructor; [done|]. eapply Forall_impl; [exact Hy|].
    unfold newer_first. intros; lia.
Qed.

Lemma sort_newest_first_sorted l : StronglySorted newer_first (sort_newest_first l).
Proof.
  unfold sort_newest_first. induction l as [|x l IH]; simpl; [constructor|].
  by apply insert_newest_first_sorted.
Qed.

Lemma sorted_firstn {A} (R : relation A) n (l : list A) :
  StronglySorted R l → StronglySorted R (List.firstn n l).
Proof.
  intros Hs. revert n. induction Hs as [|x l Hs IH Hx]; intros [|n]; simpl;
    try constructor; [apply IH|].
  apply Forall_forall. intros y Hy. rewrite Forall_forall in Hx. apply Hx.
  by apply (subseteq_take n l).
Qed.

Lemma apply_limit_sorted limit l :
  StronglySorted newer_first l → StronglySorted newer_first (apply_limit limit l).
Proof.
  intros Hs. unfold apply_limit. destruct limit as [n|]; [|done].
  repeat case_match; (done || by apply sorted_firstn).
Qed.

(** X7.  Every listing comes newest first: [list_files] returns its records
    in non-increasing order of creation time, for any date and limit; and
    with a positive limit [n] it returns the first [n] records of the
    unlimited listing, so never more than [n]. *)
Theorem list_files_newest_first (self : t) (date limit : option Z) (now : Z)
    (fs : gmap string node) :
  StronglySorted newer_first (list_files self date limit now fs) ∧
  (∀ n, limit = Some n → 0 < n →
        list_files self date limit now fs
          = List.firstn (Z.to_nat n) (list_files self date None now fs) ∧
        Z.of_nat (length (list_files self date limit now fs)) ≤ n).
Proof.
  split.
  - unfold list_files. destruct date as [d|].
    + destruct (fs !! get_storage_path (Some d) now) as [[|ch]|];
        [constructor | |]; apply apply_limit_sorted, sort_newest_first_sorted.
    + apply apply_limit_sorted, sort_newest_first_sorted.
  - intros n -> Hn.
    assert (Hl : ∀ l, apply_limit (Some n) l = List.firstn (Z.to_nat n) l).
    { intros l. unfold apply_limit.
      destruct (n =? 0) eqn:E0; [apply Z.eqb_eq in E0; lia|].
      destruct (0 <? n) eqn:E1; [done | apply Z.ltb_ge in E1; lia]. }
    assert (He : list_files self date (Some n) now fs
                 = List.firstn (Z.to_nat n) (list_files self date None now fs)).
    { unfold list_files. destruct date as [d|]; [|by rewrite Hl].
      destruct (fs !! get_storage_path (Some d) now) as [[|ch]|]; rewrite ?Hl; try done.
      by destruct (Z.to_nat n). }
    split; [done|]. rewrite He, length_take. lia.
Qed.

Lemma list_files_newest_first_witness :
  let fs : gmap string node :=
    {[ "2024-03-01" := NDir {[ "a.png" := EFile "1" (mk_meta 5 5);
                               "b.png" := EFile "22" (mk_meta 9 9);
                               "c.png" := EFile "333" (mk_meta 7 7) ]} ]} in
  l_filename <$> list_files sample_manager None (Some 2) sample_now fs = ["b.png"; "c.png"] ∧
  Z.of_nat (length (list_files sample_manager None (Some 2) sample_now fs)) ≤ 2.
Proof.
  intros fs. split; [vm_compute; reflexivity|].
  apply (proj2 (list_files_newest_first sample_manager None (Some 2) sample_now fs) 2);
    [done | lia].
Defined.

Lemma list_directory_complete self dir_name label (children : gmap string entry)
    file_name data times :
  children !! file_name = Some (EFile data times) →
  validate_filename file_name = true →
  mk_listing file_name (path_str self (mk_path dir_name file_name))
    (Z.of_nat (String.length data)) (st_ctime times) label
  ∈ list_directory self dir_name label children.
Proof.
  intros Hc Hv. unfold list_directory, iterdir. apply list_elem_of_bind.
  exists (file_name, EFile data times). split.
  - simpl. rewrite Hv. by apply list_elem_of_singleton.
  - by apply elem_of_map_to_list.
Qed.

(** X8.  The unlimited listing is complete: every regular file with a
    valid name that sits in a subdirectory other than [__pycache__] appears
    in [list_files()] with its size, creation time and directory name; and
    every such file of the bucket of [date] appears in
    [list_files(date)]. *)
Theorem list_files_complete (self : t) (now : Z) (fs : gmap string node)
    (dir_name file_name data : string) (children : gmap string entry) (times : meta) :
  fs !! dir_name = Some (NDir children) →
  children !! file_name = Some (EFile data times) →
  validate_filename file_name = true →
  (dir_name ≠ "__pycache__" →
   mk_listing file_name (path_str self (mk_path dir_name file_name))
     (Z.of_nat (String.length data)) (st_ctime times) dir_name
   ∈ list_files self None None now fs) ∧
  (∀ date, strftime_ymd date = dir_name →
           mk_listing file_name (path_str self (mk_path dir_name file_name))
             (Z.of_nat (String.length data)) (st_ctime times) dir_name
           ∈ list_files self (Some date) None now fs).
Proof.
  intros Hd Hc Hv. split.
  - intros Hne. unfold list_files, apply_limit. rewrite sort_newest_first_perm.
    apply list_elem_of_bind. exists (dir_name, children). split.
    + by apply list_directory_complete.
    + by apply elem_of_subdirectories.
  - intros date <-. unfold list_files, apply_limit, get_storage_path. simpl default.
    rewrite Hd, sort_newest_first_perm. by apply list_directory_complete.
Qed.

Lemma list_files_complete_witness :
  let fs : gmap string node :=
    {[ "2024-03-01" := NDir {[ sample_name := EFile "png-bytes" sample_stamp ]} ]} in
  mk_listing sample_name (path_str sample_manager (mk_path "2024-03-01" sample_name))
    9 0 "2024-03-01"
  ∈ list_files sample_manager None None sample_now fs.
Proof.
  intros fs.
  apply (proj1 (list_files_complete sample_manager sample_now fs "2024-03-01"
                  sample_name "png-bytes" {[ sample_name := EFile "png-bytes" sample_stamp ]}
                  sample_stamp eq_refl eq_refl eq_refl)).
  discriminate.
Defined.

End listing_order.

(** ** Storage statistics *)

Section statistics.
Import FileManager.

Lemma sums_skip_empty (l : list directory_stats) :
  (∀ d, d ∈ l → d_files d = O → d_size d = 0) →
  foldr Nat.add O (d_files <$> List.filter (λ d, Nat.ltb 0 (d_files d)) l)
    = foldr Nat.add O (d_files <$> l) ∧
  sum_sizes (d_size <$> List.filter (λ d, Nat.ltb 0 (d_files d)) l)
    = sum_sizes (d_size <$> l).
Proof.
  unfold sum_sizes. induction l as [|d l IH]; intros H; [done|].
  destruct IH as [IH1 IH2]; [intros; apply H; [by constructor | done]|].
  cbn [List.filter]. destruct (Nat.ltb 0 (d_files d)) eqn:E.
  - rewrite !fmap_cons. cbn [foldr]. by rewrite IH1, IH2.
  - apply Nat.ltb_ge in E. assert (E0 : d_files d = O) by lia.
    rewrite !fmap_cons. cbn [foldr].
    rewrite IH1, IH2, E0, (H d) by (done || constructor). done.
Qed.

(** X9.  The per-date breakdown of [get_storage_stats] adds up to its
    totals: the file counts of the listed directories sum to
    [total_files], their sizes to [total_size]; every listed directory
    holds at least one regular file and is a subdirectory of the base
    directory other than [__pycache__]. *)
Theorem get_storage_stats_adds_up (self : t) (fs : gmap string node) :
  let stats := get_storage_stats self fs in
  foldr Nat.add O (d_files <$> directories stats) = total_files stats ∧
  sum_sizes (d_size <$> directories stats) = total_size stats ∧
  Forall (λ d, (0 < d_files d)%nat ∧ d_date d ≠ "__pycache__" ∧
               ∃ children, fs !! d_date d = Some (NDir children) ∧
                           d_files d = length (regular_files children))
    (directories stats).
Proof.
  intros stats. unfold stats, get_storage_stats. cbn [directories total_files total_size].
  set (per_dir := _ <$> subdirectories fs).
  assert (Hper : ∀ d, d ∈ per_dir →
            d_date d ≠ "__pycache__" ∧
            ∃ children, fs !! d_date d = Some (NDir children) ∧
                        d_files d = length (regular_files children) ∧
                        d_size d = sum_sizes (regular_files children).*2).
  { intros d Hd. unfold per_dir in Hd.
    apply list_elem_of_fmap in Hd as ([k ch] & -> & Hk).
    apply elem_of_subdirectories in Hk as [Hk Hne]. simpl. eauto. }
  destruct (sums_skip_empty per_dir) as [H1 H2].
  { intros d Hd E. destruct (Hper d Hd) as (_ & ch & _ & Ef & ->).
    rewrite E in Ef. by destruct (regular_files ch). }
  split; [done|]. split; [done|].
  apply Forall_forall. intros d Hd. apply list_elem_of_In, filter_In in Hd as [Hd Hpos].
  apply list_elem_of_In in Hd. destruct (Hper d Hd) as (Hne & ch & Hl & Ef & _).
  apply Nat.ltb_lt in Hpos. eauto.
Qed.

End statistics.

(** ** Saving, looking up, deleting *)

Section store.
Import FileManager Datetime.

Lemma stat_insert_entry (fs : gmap string node) dir_name children file_name e q :
  fs !! dir_name = Some (NDir children) →
  stat (<[dir_name := NDir (<[file_name := e]> children)]> fs) q =
    if decide (q = mk_path dir_name file_name) then Some e else stat fs q.
Proof.
  intros Hd. unfold stat. destruct q as [b n]. simpl.
  destruct (decide (b = dir_name)) as [->|Hb].
  - rewrite lookup_insert_eq, Hd. destruct (decide (n = file_name)) as [->|Hn].
    + by rewrite decide_True, lookup_insert_eq.
    + rewrite decide_False by congruence. by rewrite lookup_insert_ne.
  - rewrite decide_False by congruence. by rewrite lookup_insert_ne.
Qed.

Lemma stat_unlink (fs : gmap string node) p q :
  stat (unlink fs p) q = if decide (q = p) then None else stat fs q.
Proof.
  unfold unlink, stat. destruct p as [b n], q as [b' n']. simpl.
  destruct (fs !! b) as [[data|ch]|] eqn:Hb.
  - case_decide as E; [|done]. injection E as -> ->. by rewrite Hb.
  - destruct (decide (b' = b)) as [->|Hne].
    + rewrite lookup_insert_eq, Hb. destruct (decide (n' = n)) as [->|Hn].
      * by rewrite decide_True, lookup_delete_eq.
      * rewrite decide_False by congruence. by rewrite lookup_delete_ne.
    + rewrite decide_False by congruence. by rewrite lookup_insert_ne.
  - case_decide as E; [|done]. injection E as -> ->. by rewrite Hb.
Qed.

Lemma stat_mkdir (fs fs1 : gmap string node) dir_name q :
  mkdir fs dir_name = Some fs1 → stat fs1 q = stat fs q.
Proof.
  unfold mkdir, stat. destruct (fs !! dir_name) as [[|ch]|] eqn:E; intros [= <-]; [done|].
  destruct (decide (bucket q = dir_name)) as [->|Hne].
  - by rewrite lookup_insert_eq, E, lookup_empty.
  - by rewrite lookup_insert_ne.
Qed.

Lemma stat_save_file (self : t) (io : fault) (file_data filename : string)
    (date : option Z) (now : Z) (stamp : meta) (fs : gmap string node) (q : path) :
  q ≠ mk_path (get_storage_path date now) filename →
  stat (save_file self io file_data filename date now stamp fs).2 q = stat fs q.
Proof.
  intros Hq. unfold save_file. set (dir := get_storage_path date now) in *.
  destruct (match io with MkdirFails => None | _ => mkdir fs dir end) as [fs1|] eqn:Hmk;
    [|done].
  assert (Hmk' : mkdir fs dir = Some fs1) by (by destruct io).
  pose proof (mkdir_children _ _ _ Hmk') as Hch.
  assert (Hst : ∀ e, stat (<[dir := NDir (<[filename := e]> (children_of fs1 dir))]> fs1) q
                     = stat fs q).
  { intros e. rewrite (stat_insert_entry _ _ _ _ _ _ Hch), decide_False by done.
    by eapply stat_mkdir. }
  destruct (children_of fs1 dir !! filename) as [[|]|];
    repeat case_match; simpl; rewrite ?Hst; try done; by eapply stat_mkdir.
Qed.





(** X12.  A file saved under a valid name is found by [get_file_info] for
    the rest of that calendar day: the details carry the path the save
    reported, the number of bytes written, the file's timestamps and the
    lower-cased extension. *)
Theorem save_then_get_file_info (self : t) (io : fault) (file_data filename : string)
    (now : Z) (stamp : meta) (fs fs' : gmap string node) (info : file_info) (now' : Z) :
  save_file self io file_data filename None now stamp fs = (Saved info, fs') →
  validate_filename filename = true →
  ordinal now' = ordinal now →
  get_file_info self filename now' fs' =
    Some (mk_details filename (info_filepath info) (Z.of_nat (String.length file_data))
            (st_ctime stamp) (st_mtime stamp) (Str.lower (suffix filename))).
Proof.
  intros Hsave Hv Hday.
  destruct (save_file_saved _ _ _ _ _ _ _ _ _ _ Hsave) as (_ & Hstat & ->).
  unfold get_storage_path in Hstat. simpl default in Hstat.
  assert (Hb : strftime_ymd (minus_days now' (Z.of_nat 0)) = strftime_ymd now).
  { apply strftime_ymd_ordinal. rewrite ordinal_minus_days. simpl. lia. }
  assert (Hp : get_file_path filename None now' fs' = Some (mk_path (strftime_ymd now) filename)).
  { apply get_file_path_recent. exists O. rewrite Hb. repeat split; [lia | |].
    - unfold path_exists. by rewrite Hstat.
    - intros j Hj. lia. }
  unfold get_file_info. rewrite Hv. cbn [negb]. rewrite Hp, Hstat. done.
Qed.

Lemma save_then_get_file_info_witness :
  let fs' : gmap string node :=
    {[ "2024-03-01" := NDir {[ sample_name := EFile "png-bytes" sample_stamp ]} ]} in
  get_file_info sample_manager sample_name (sample_now + seconds 3600) fs' =
    Some (mk_details sample_name
            "generated_images/2024-03-01/20240101_120000_000_abcdef12.png" 9 0 0 ".png").
Proof.
  intros fs'.
  assert (Hsave : save_file sample_manager NoFault "png-bytes" sample_name None
                    sample_now sample_stamp ∅
                  = (Saved (mk_info sample_name
                              "generated_images/2024-03-01/20240101_120000_000_abcdef12.png"
                              "2024-03-01/20240101_120000_000_abcdef12.png" 9 "2024-03-01"),
                     fs')) by (vm_compute; reflexivity).
  apply (save_then_get_file_info _ _ _ _ _ _ _ _ _ (sample_now + seconds 3600) Hsave).
  - reflexivity.
  - reflexivity.
Defined.

End store.

(** ** What a sweep deletes *)

Section sweep_effect.
Import FileManager Datetime.

(** The paths a sweep lists for deletion. *)
Lemma candidate_paths now cutoff (fs : gmap string node) (p : path) :
  p ∈ c_filepath <$> find_candidates now cutoff fs ↔
  bucket p ≠ "__pycache__" ∧
  ∃ dir_date data times,
    strptime_ymd (bucket p) = Some dir_date ∧ dir_date < cutoff ∧
    stat fs p = Some (EFile data times).
Proof.
  rewrite list_elem_of_fmap. unfold find_candidates, candidates_in, stat. split.
  - intros (c & -> & Hc). apply list_elem_of_bind in Hc as ([d ch] & Hc & Hd).
    apply elem_of_subdirectories in Hd as [Hd Hne].
    destruct (strptime_ymd d) as [dir_date|] eqn:Hp; [|inversion Hc].
    destruct (dir_date <? cutoff) eqn:Hlt; [|inversion Hc].
    apply list_elem_of_bind in Hc as ([f sz] & Hc & Hf).
    apply list_elem_of_singleton in Hc as ->. simpl.
    apply elem_of_regular_files in Hf as (data & times & Hf & _).
    split; [done|]. exists dir_date, data, times. rewrite Hd. apply Z.ltb_lt in Hlt. done.
  - intros (Hne & dir_date & data & times & Hp & Hlt & Hs).
    destruct p as [d f]. simpl in *.
    destruct (fs !! d) as [[|ch]|] eqn:Hd; try done.
    exists (mk_candidate (mk_path d f) f (Z.of_nat (String.length data)) d
              ((now - dir_date) / day_us)).
    split; [done|]. apply list_elem_of_bind. exists (d, ch). split.
    + rewrite Hp. apply Z.ltb_lt in Hlt. rewrite Hlt.
      apply list_elem_of_bind. exists (f, Z.of_nat (String.length data)). split.
      * by apply list_elem_of_singleton.
      * apply elem_of_regular_files. eauto.
    + by apply elem_of_subdirectories.
Qed.

Lemma stat_delete_files files : ∀ (fs : gmap string node) q,
  (q ∈ c_filepath <$> files → stat (delete_files files fs).2 q = None) ∧
  (q ∉ c_filepath <$> files → stat (delete_files files fs).2 q = stat fs q).
Proof.
  induction files as [|c files IH]; intros fs q.
  - split; [inversion 1 | done].
  - cbn [delete_files]. rewrite fmap_cons.
    destruct (path_exists fs (c_filepath c)) eqn:Hex.
    + destruct (IH (unlink fs (c_filepath c)) q) as [IH1 IH2].
      destruct (delete_files files (unlink fs (c_filepath c))) as [deleted fs'].
      cbn [snd] in *. split.
      * intros Hq. destruct (decide (q ∈ c_filepath <$> files)) as [Hin|Hout]; [auto|].
        apply elem_of_cons in Hq as [->|Hq]; [|done].
        rewrite IH2 by done. by rewrite stat_unlink, decide_True.
      * intros Hq. apply not_elem_of_cons in Hq as [Hne Hq].
        rewrite IH2 by done. by rewrite stat_unlink, decide_False.
    + destruct (IH fs q) as [IH1 IH2]. split.
      * intros Hq. destruct (decide (q ∈ c_filepath <$> files)) as [Hin|Hout]; [auto|].
        apply elem_of_cons in Hq as [->|Hq]; [|done].
        rewrite IH2 by done. unfold path_exists in Hex.
        by destruct (stat fs (c_filepath c)).
      * intros Hq. apply not_elem_of_cons in Hq as [Hne Hq]. auto.
Qed.

Lemma stat_remove_empty dirs : ∀ (fs : gmap string node) q,
  (∀ d ch, (d, ch) ∈ dirs → fs !! d = Some (NDir ch)) →
  stat (remove_empty dirs fs).2 q = stat fs q.
Proof.
  intros fs q Hdirs.
  destruct (remove_empty_lookup dirs (bucket q) fs) as [H|[H (ch & Hin & He)]];
    unfold stat; rewrite H; [done|].
  rewrite (Hdirs _ _ Hin). apply map_to_list_empty_iff in He. by rewrite He, lookup_empty.
Qed.

Lemma stat_log results log_now (fs : gmap string node) q :
  stat (_log_cleanup_results results log_now fs) q = stat fs q.
Proof.
  unfold _log_cleanup_results, stat.
  destruct (fs !! cleanup_log_file) as [[old|ch]|] eqn:E; [|done|].
  - destruct (decide (bucket q = cleanup_log_file)) as [->|Hne].
    + by rewrite lookup_insert_eq, E.
    + by rewrite lookup_insert_ne.
  - destruct (decide (bucket q = cleanup_log_file)) as [->|Hne].
    + by rewrite lookup_insert_eq, E.
    + by rewrite lookup_insert_ne.
Qed.

(** The whole effect of a sweep on the files of the tree. *)
Lemma stat_cleanup self dry now log_now (fs : gmap string node) q :
  let fs' := (cleanup_old_files self dry now log_now fs).2 in
  let cutoff := minus_days now (max_age_days self) in
  (dry = true → stat fs' q = stat fs q) ∧
  (dry = false →
   (q ∈ c_filepath <$> find_candidates now cutoff fs → stat fs' q = None) ∧
   (q ∉ c_filepath <$> find_candidates now cutoff fs → stat fs' q = stat fs q)).
Proof.
  intros fs' cutoff. unfold fs', cleanup_old_files. fold cutoff.
  remember (find_candidates now cutoff fs) as files.
  split.
  - intros ->. cbn [negb fst snd]. apply stat_log.
  - intros ->. cbn [negb]. destruct files as [|c rest].
    + cbn [fst snd]. rewrite stat_log. split; [inversion 1 | done].
    + destruct (stat_delete_files (c :: rest) fs q) as [D1 D2].
      destruct (delete_files (c :: rest) fs) as [deleted fs1]. cbn [snd] in *.
      pose proof (stat_remove_empty (subdirectories fs1) fs1 q) as Hrm.
      destruct (remove_empty (subdirectories fs1) fs1) as [removed fs2]. cbn [fst snd] in *.
      rewrite stat_log, Hrm.
      * split; auto.
      * intros d ch Hin. by apply elem_of_subdirectories in Hin as [? _].
Qed.



(** X14.  A real sweep leaves nothing for the next one: a second sweep
    with the same clock reading and retention period, dry or real, finds
    no candidate and has no bytes to free. *)
Theorem cleanup_twice_finds_nothing (self : t) (dry_run : bool) (now log_now log_now' : Z)
    (fs : gmap string node) :
  let first := cleanup_old_files self false now log_now fs in
  let second := cleanup_old_files self dry_run now log_now' first.2 in
  files_found second.1 = O ∧ potential_size_to_free_bytes second.1 = 0 ∧
  files_deleted second.1 = O.
Proof.
  intros first second.
  assert (Hnone : find_candidates now (minus_days now (max_age_days self)) first.2 = []).
  { destruct (find_candidates now (minus_days now (max_age_days self)) first.2)
      as [|c rest] eqn:E; [done|]. exfalso.
    assert (Hc : c_filepath c ∈ c_filepath <$>
                   find_candidates now (minus_days now (max_age_days self)) first.2)
      by (rewrite E, fmap_cons; constructor).
    apply candidate_paths in Hc as (Hne & dir_date & data & times & Hp & Hlt & Hs).
    destruct (stat_cleanup self false now log_now fs (c_filepath c)) as [_ Hreal].
    destruct (Hreal eq_refl) as [H1 H2]. fold first in H1, H2.
    destruct (decide (c_filepath c ∈ c_filepath <$>
                find_candidates now (minus_days now (max_age_days self)) fs)) as [Hin|Hout].
    - rewrite H1 in Hs by done. done.
    - rewrite H2 in Hs by done. apply Hout, candidate_paths. eauto 10. }
  unfold second. rewrite cleanup_reports_candidates, cleanup_reports_potential, Hnone.
  split; [done|]. split; [done|].
  unfold cleanup_old_files. fold first. rewrite Hnone. by destruct dry_run.
Qed.

End sweep_effect.

(** ** Bucket names read back *)

Section bucket_round_trip.
Import Str Calendar Datetime FileManager.
Local Arguments String.append !s1 s2 : simpl nomatch.

Lemma ord2ymd_valid n :
  min_ordinal ≤ n ≤ max_ordinal →
  let '(y, m, d) := ord2ymd n in
  valid_date y m d = true ∧ ymd2ord y m d = n.
Proof.
  unfold min_ordinal, max_ordinal. intros [Hn Hmax]. unfold ord2ymd.
  pose proof (ord2year_spec n Hn) as Hy. destruct (ord2year n) as [y r].
  destruct Hy as (Hsum & Hr & Hy1).
  pose proof (month_of_spec (is_leap y) r Hr) as Hm.
  destruct (month_of 11 (is_leap y) 1 r) as [m d].
  destruct Hm as (Hm & Hd & Hbefore).
  assert (y ≤ 9999) by (unfold days_before_year in Hsum; Z.div_mod_to_equations; lia).
  split.
  - unfold valid_date, days_in_month. rewrite !andb_true_iff, !Z.leb_le. lia.
  - unfold ymd2ord, days_before_month. lia.
Qed.

Lemma digit_val_digit k : digit_val (digit k) = Some (k mod 10).
Proof.
  unfold digit_val, digit. pose proof (Z.mod_pos_bound k 10 eq_refl) as Hk.
  rewrite nat_ascii_embedding by lia.
  replace (Nat.leb 48 (48 + Z.to_nat (k mod 10))) with true
    by (symmetry; apply Nat.leb_le; lia).
  replace (Nat.leb (48 + Z.to_nat (k mod 10)) 57) with true
    by (symmetry; apply Nat.leb_le; lia).
  cbn [andb]. f_equal. lia.
Qed.

Lemma parse_month_pad2 m rest :
  1 ≤ m ≤ 12 → parse_month (pad2 m +:+ rest) = Some (m, rest).
Proof.
  intros Hm.
  assert (H : m = 1 ∨ m = 2 ∨ m = 3 ∨ m = 4 ∨ m = 5 ∨ m = 6 ∨ m = 7 ∨ m = 8 ∨
              m = 9 ∨ m = 10 ∨ m = 11 ∨ m = 12) by lia.
  repeat (destruct H as [->|H]; [reflexivity|]). subst m. reflexivity.
Qed.

Lemma parse_day_pad2 d :
  1 ≤ d ≤ 31 → parse_day (pad2 d) = Some (d, EmptyString).
Proof.
  intros Hd.
  assert (Hall : forallb (λ k : nat,
            match parse_day (pad2 (Z.of_nat k)) with
            | Some (v, EmptyString) => v =? Z.of_nat k
            | _ => false
            end) (seq 1 31) = true) by (vm_compute; reflexivity).
  rewrite forallb_forall in Hall. specialize (Hall (Z.to_nat d)).
  rewrite Z2Nat.id in Hall by lia.
  assert (Hin : In (Z.to_nat d) (seq 1 31)) by (apply in_seq; lia).
  specialize (Hall Hin).
  destruct (parse_day (pad2 d)) as [[v [|? ?]]|]; try discriminate.
  apply Z.eqb_eq in Hall. by subst.
Qed.

(** [strptime] reads a date written as [%Y-%m-%d]. *)
Lemma strptime_ymd_written y m d :
  valid_date y m d = true →
  strptime_ymd (pad4 y +:+ "-" +:+ pad2 m +:+ "-" +:+ pad2 d) =
    Some (ymd2ord y m d * day_us).
Proof.
  intros Hv. pose proof Hv as Hv'. unfold valid_date in Hv'.
  rewrite !andb_true_iff, !Z.leb_le in Hv'.
  destruct Hv' as (((((Hy1 & Hy2) & Hm1) & Hm2) & Hd1) & Hd2).
  assert (Hd31 : d ≤ 31).
  { unfold days_in_month, month_length in Hd2. repeat case_match; lia. }
  unfold pad4. change (pad2 y) with (String (digit (y / 10)) (String (digit y) EmptyString)).
  cbn [String.append]. unfold strptime_ymd.
  rewrite !digit_val_digit. change (eqb_char "-" "-") with true. cbv iota.
  rewrite parse_month_pad2 by lia. cbn [String.append].
  change (eqb_char "-" "-") with true. cbv iota.
  rewrite parse_day_pad2 by lia. cbv zeta.
  replace (1000 * (y / 1000 mod 10) + 100 * (y / 100 mod 10) + 10 * (y / 10 mod 10) +
           y mod 10) with y by (Z.div_mod_to_equations; lia).
  by rewrite Hv.
Qed.

Lemma strptime_strftime dt :
  representable dt → strptime_ymd (strftime_ymd dt) = Some (ordinal dt * day_us).
Proof.
  intros Hr. unfold strftime_ymd.
  pose proof (ord2ymd_valid (ordinal dt) Hr) as Hv.
  destruct (ord2ymd (ordinal dt)) as [[y m] d]. destruct Hv as [Hv <-].
  by apply strptime_ymd_written.
Qed.





End bucket_round_trip.

(** ** The download route *)

Section download.
Import FileManager Datetime App.

(** X17.  The download route never answers 404.  [get_file_path] returns
    only paths that exist, so the test that guards the 404 answer cannot
    fail; and for a name that is in none of the seven recent buckets it
    returns [None], on which the route raises and answers 500. *)
Theorem download_image_never_404 (send_file : gmap string node → path → bool)
    (filename : string) (now : Z) (fs : gmap string node) :
  download_image send_file filename now fs ≠ NotFound404 ∧
  ((∀ days_back : nat, (days_back < 7)%nat →
      path_exists fs (mk_path (strftime_ymd (minus_days now (Z.of_nat days_back)))
                              filename) = false) →
   download_image send_file filename now fs = Error500).
Proof.
  unfold download_image.
  destruct (get_file_path filename None now fs) as [p|] eqn:E.
  - apply get_file_path_recent in E as (k & Hk & -> & Hp & _). rewrite Hp. split.
    + by destruct (send_file fs _).
    + intros Hnone. rewrite (Hnone k Hk) in Hp. discriminate.
  - done.
Qed.

Lemma download_image_never_404_witness :
  download_image (λ _ _, true) sample_name sample_now ∅ = Error500.
Proof.
  apply (download_image_never_404 (λ _ _, true) sample_name sample_now ∅).
  intros days_back _. reflexivity.
Defined.

End download.

(** ** Generated names *)

Section generated_names.
Import Str FileManager.
Local Arguments String.append !s1 s2 : simpl nomatch.

(** Characters of the allowed set other than the dot. *)
Local Notation "'word'" :=
  (λ c : ascii, in_chars c allowed_chars && negb (eqb_char c ".")).

Lemma word_char a :
  word a = true →
  eqb_char "." a = false ∧ eqb_char "/" a = false ∧ eqb_char "092" a = false ∧
  in_chars a allowed_chars = true.
Proof.
  intros H. apply andb_true_iff in H as [Hin Hdot]. split; [|split; [|split]]; [| | |done].
  - apply negb_true_iff in Hdot. unfold eqb_char in *. by rewrite Ascii.eqb_sym.
  - destruct (eqb_char "/" a) eqn:E; [|done].
    apply Ascii.eqb_eq in E. subst a. vm_compute in Hin. discriminate.
  - destruct (eqb_char "092" a) eqn:E; [|done].
    apply Ascii.eqb_eq in E. subst a. vm_compute in Hin. discriminate.
Qed.

Lemma hex_word a : is_hex a = true → word a = true.
Proof.
  unfold is_hex. cbn [in_chars]. rewrite !orb_true_iff. unfold eqb_char.
  rewrite !Ascii.eqb_eq.
  intros H. repeat (destruct H as [->|H]; [vm_compute; reflexivity|]). done.
Qed.

Lemma digit_word k : word (digit k) = true.
Proof.
  unfold digit. pose proof (Z.mod_pos_bound k 10 eq_refl) as Hk.
  assert (H : k mod 10 = 0 ∨ k mod 10 = 1 ∨ k mod 10 = 2 ∨ k mod 10 = 3 ∨ k mod 10 = 4 ∨
              k mod 10 = 5 ∨ k mod 10 = 6 ∨ k mod 10 = 7 ∨ k mod 10 = 8 ∨ k mod 10 = 9)
    by lia.
  repeat (destruct H as [->|H]; [vm_compute; reflexivity|]).
  rewrite H. vm_compute. reflexivity.
Qed.

Lemma all_chars_append p a b :
  all_chars p (a +:+ b) = all_chars p a && all_chars p b.
Proof.
  induction a as [|c a IH]; [done|]. cbn [String.append all_chars].
  by rewrite IH, andb_assoc.
Qed.

Lemma all_chars_prefix_bytes p n : ∀ s,
  all_chars p s = true → all_chars p (prefix_bytes n s) = true.
Proof.
  induction n as [|n IH]; intros [|c s]; try done. cbn [prefix_bytes all_chars].
  rewrite !andb_true_iff. intros [? ?]. auto.
Qed.

Lemma all_chars_drop_right p n s :
  all_chars p s = true → all_chars p (drop_right n s) = true.
Proof.
  induction s as [|c s IH]; [done|]. cbn [all_chars]. rewrite andb_true_iff.
  intros [Hc Hs]. cbn [drop_right].
  destruct (Nat.leb _ _); [done|]. cbn [all_chars]. by rewrite Hc, IH.
Qed.

Lemma length_append a b :
  String.length (a +:+ b) = (String.length a + String.length b)%nat.
Proof. induction a as [|c a IH]; [done|]. cbn [String.append String.length]. by rewrite IH. Qed.

Lemma contains_word_prefix n0 n' stem tail :
  (∀ a, word a = true → eqb_char n0 a = false) →
  all_chars word stem = true →
  contains (String n0 n') (stem +:+ tail) = contains (String n0 n') tail.
Proof.
  intros Hn. induction stem as [|c stem IH]; [done|].
  intros [Hc Hs]%andb_true_iff. cbn [String.append].
  change (contains (String n0 n') (String c (stem +:+ tail)))
    with (eqb_char n0 c && starts_with n' (stem +:+ tail) ||
          contains (String n0 n') (stem +:+ tail)).
  by rewrite (Hn c Hc), IH.
Qed.

Lemma rfind_append c stem tail i :
  rfind c tail = Some i → rfind c (stem +:+ tail) = Some (String.length stem + i)%nat.
Proof.
  intros Ht. induction stem as [|a stem IH]; [done|].
  cbn [String.append rfind String.length]. by rewrite IH.
Qed.

Lemma drop_append stem tail : drop (String.length stem) (stem +:+ tail) = tail.
Proof. induction stem as [|a stem IH]; [by destruct tail|]. done. Qed.

(** A stem of allowed characters without a dot, followed by an
    extension of the allowed set, is a valid name. *)
Lemma validate_word_stem stem ext :
  stem ≠ "" → all_chars word stem = true → ext ∈ ["png"; "jpg"; "jpeg"] →
  validate_filename (stem +:+ "." +:+ ext) = true.
Proof.
  intros Hne Hw Hext. unfold validate_filename.
  destruct (stem +:+ "." +:+ ext) as [|x rest] eqn:E; [by destruct stem|].
  rewrite <- E. clear E x rest.
  assert (Hsep : ∀ a, word a = true →
            eqb_char "." a = false ∧ eqb_char "/" a = false ∧ eqb_char "092" a = false)
    by (intros a Ha; apply word_char in Ha; tauto).
  rewrite (contains_word_prefix "." "." stem) by (done || apply Hsep).
  rewrite (contains_word_prefix "/" "" stem) by (done || apply Hsep).
  rewrite (contains_word_prefix "092" "" stem) by (done || apply Hsep).
  rewrite all_chars_append.
  rewrite (all_chars_impl word (λ c, in_chars c allowed_chars) stem)
    by first [done | intros a Ha; by apply word_char in Ha as (?&?&?&?)].
  assert (Hlen : (0 < String.length stem)%nat) by (destruct stem; [done | cbn; lia]).
  assert (Hsuf : suffix (stem +:+ "." +:+ ext) = "." +:+ ext).
  { unfold suffix. rewrite (rfind_append "." stem ("." +:+ ext) 0).
    - rewrite Nat.add_0_r, length_append, drop_append.
      replace (Nat.ltb 0 (String.length stem)) with true
        by (symmetry; by apply Nat.ltb_lt).
      replace (Nat.ltb (String.length stem)
                 (String.length stem + String.length ("." +:+ ext) - 1)) with true; [done|].
      symmetry. apply Nat.ltb_lt.
      repeat (apply elem_of_cons in Hext as [->|Hext]; [cbn; lia|]). inversion Hext.
    - repeat (apply elem_of_cons in Hext as [->|Hext]; [reflexivity|]). inversion Hext. }
  rewrite Hsuf.
  repeat (apply elem_of_cons in Hext as [->|Hext]; [vm_compute; reflexivity|]).
  inversion Hext.
Qed.

Lemma strftime_compact_word now : all_chars word (strftime_compact now) = true.
Proof.
  unfold strftime_compact. destruct (Calendar.ord2ymd (Datetime.ordinal now)) as [[y m] d].
  rewrite !all_chars_append. unfold pad6, pad4, pad2. cbn [all_chars].
  rewrite !digit_word. vm_compute. reflexivity.
Qed.

(** X18.  The names [create_filename] makes are names [validate_filename]
    accepts: with a digest of hexadecimal digits and an extension that
    is [png], [jpg] or [jpeg] once its leading dots are stripped, the
    generated name passes the validation that [get_file_info] and
    [delete_file] apply. *)
Theorem create_filename_valid (md5_hexdigest : string → string) (now : Z)
    (prompt extension : string) :
  (∀ s, Str.all_chars Str.is_hex (md5_hexdigest s) = true) →
  Str.lstrip_dots extension ∈ ["png"; "jpg"; "jpeg"] →
  validate_filename (create_filename md5_hexdigest now prompt extension) = true.
Proof.
  intros Hhex Hext. unfold create_filename.
  rewrite <- !append_assoc. rewrite (append_assoc _ "." (lstrip_dots extension)).
  apply validate_word_stem; [| |done].
  - intros E. apply (f_equal String.length) in E. rewrite !length_append in E.
    cbn in E. lia.
  - rewrite !all_chars_append, all_chars_drop_right by apply strftime_compact_word.
    rewrite all_chars_prefix_bytes; [done|].
    apply (all_chars_impl is_hex); [apply hex_word | apply Hhex].
Qed.

Lemma create_filename_valid_witness :
  validate_filename
    (create_filename (λ _, "d41d8cd98f00b204e9800998ecf8427e") sample_now "a cat" ".png")
  = true.
Proof.
  apply (create_filename_valid (λ _, "d41d8cd98f00b204e9800998ecf8427e") sample_now
           "a cat" ".png").
  - intros s. vm_compute. reflexivity.
  - vm_compute. apply list_elem_of_here.
Defined.

End generated_names.

(** ** The cleanup service *)

Section service_status.
Import FileManager Datetime CleanupService.
Variable fromisoformat : string → option Z.

(** After any sweep the scheduler reads the time of the sweep's log
    write. *)
Lemma last_cleanup_after_sweep self dry now log_now (fs : gmap string node) old :
  (fs !! cleanup_log_file = Some (NFile old) ∨ fs !! cleanup_log_file = None ∧ old = "") →
  (old = "" ∨ ∃ pre, old = pre +:+ String "010" "") →
  fromisoformat (isoformat log_now) = Some log_now →
  _get_last_cleanup_time fromisoformat (cleanup_old_files self dry now log_now fs).2
    = Some log_now.
Proof.
  intros Hold Hwhole Hparse.
  pose proof (cleanup_appends_line self dry now log_now fs old Hold) as Hlog.
  set (swept := cleanup_old_files self dry now log_now fs) in *.
  unfold _get_last_cleanup_time. rewrite Hlog. unfold log_entry at 1.
  rewrite (last_line_appended old (log_line swept.1 log_now) Hwhole)
    by apply log_line_text.
  fold (log_entry swept.1 log_now).
  pose proof (log_line_stripped swept.1 log_now) as Hs.
  pose proof (log_line_timestamp swept.1 log_now) as Ht.
  pose proof (log_line_nonempty swept.1 log_now) as Hne.
  rewrite Hs in *. destruct (log_line swept.1 log_now); [done|].
  by rewrite Ht.
Qed.


End service_status.


(** ** Limits that are not positive *)

Section listing_limit.
Import FileManager.

(** X20.  A limit that is not positive does not mean an empty listing.
    [list_files] with limit 0 returns the whole listing, as without a
    limit; with a negative limit [n] it returns the listing without its
    last [-n] records, the oldest ones. *)
Theorem list_files_limit_not_positive (self : t) (date : option Z) (now : Z)
    (fs : gmap string node) :
  list_files self date (Some 0) now fs = list_files self date None now fs ∧
  ∀ n, n < 0 →
    list_files self date (Some n) now fs =
      List.firstn (length (list_files self date None now fs) - Z.to_nat (- n))
        (list_files self date None now fs).
Proof.
  assert (Hlim : ∀ files n, n < 0 →
            apply_limit (Some n) files
            = List.firstn (length files - Z.to_nat (- n)) files).
  { intros files n Hn. unfold apply_limit.
    destruct (n =? 0) eqn:E0; [apply Z.eqb_eq in E0; lia|].
    destruct (0 <? n) eqn:E1; [apply Z.ltb_lt in E1; lia|].
    f_equal. lia. }
  unfold list_files. destruct date as [d|].
  - destruct (fs !! get_storage_path (Some d) now) as [[|ch]|]; split;
      first [done | intros n Hn; by rewrite ?Hlim by done].
  - split; [done|]. intros n Hn. by rewrite Hlim.
Qed.

Lemma list_files_limit_not_positive_witness :
  let fs : gmap string node :=
    {[ "2024-03-01" := NDir {[ "a.png" := EFile "a" (mk_meta 5 5);
                               "b.png" := EFile "bb" (mk_meta 9 9) ]} ]} in
  l_filename <$> list_files sample_manager None (Some (-1)) sample_now fs = ["b.png"].
Proof.
  intros fs.
  rewrite (proj2 (list_files_limit_not_positive sample_manager None sample_now fs) (-1))
    by lia.
  vm_compute. reflexivity.
Defined.

End listing_limit.

(** ** Saving and deleting *)

Section save_delete.
Import FileManager Datetime.

(** X21.  Deleting undoes a save.  [delete_file], called on the calendar
    day of the write for a file that [save_file] wrote under a valid
    name, returns [True]; afterwards the file is gone and every other
    path has the [stat] it had before the save.  The bucket directory
    stays, even when the file was its only entry. *)
Theorem save_then_delete_file (self : t) (io : fault) (file_data filename : string)
    (now : Z) (stamp : meta) (fs fs1 : gmap string node) (info : file_info) (now' : Z) :
  save_file self io file_data filename None now stamp fs = (Saved info, fs1) →
  validate_filename filename = true →
  ordinal now' = ordinal now →
  let saved := mk_path (strftime_ymd now) filename in
  let deleted := delete_file filename now' fs1 in
  deleted.1 = true ∧
  stat deleted.2 saved = None ∧
  (∀ q, q ≠ saved → stat deleted.2 q = stat fs q) ∧
  ∃ children, deleted.2 !! strftime_ymd now = Some (NDir children).
Proof.
  intros Hsave Hv Hday saved deleted.
  destruct (save_file_saved _ _ _ _ _ _ _ _ _ _ Hsave) as (_ & Hstat & _).
  change (get_storage_path None now) with (strftime_ymd now) in Hstat. fold saved in Hstat.
  assert (Hb : strftime_ymd (minus_days now' (Z.of_nat 0)) = strftime_ymd now).
  { apply strftime_ymd_ordinal. rewrite ordinal_minus_days. simpl. lia. }
  assert (Hp : get_file_path filename None now' fs1 = Some saved).
  { apply get_file_path_recent. exists O. rewrite Hb. repeat split; [lia | |].
    - unfold path_exists. fold saved. by rewrite Hstat.
    - intros j Hj. lia. }
  assert (Hdel : deleted = (true, unlink fs1 saved)).
  { unfold deleted, delete_file. rewrite Hv. cbn [negb]. by rewrite Hp, Hstat. }
  rewrite Hdel. cbn [fst snd]. split; [done|]. split; [|split].
  - by rewrite stat_unlink, decide_True.
  - intros q Hq. rewrite stat_unlink, decide_False by done.
    pose proof (stat_save_file self io file_data filename None now stamp fs q) as Hframe.
    rewrite Hsave in Hframe. apply Hframe. exact Hq.
  - unfold stat in Hstat. unfold unlink. cbn [bucket saved] in *.
    destruct (fs1 !! strftime_ymd now) as [[|ch]|] eqn:E; try done.
    rewrite lookup_insert_eq. eauto.
Qed.

Lemma save_then_delete_file_witness :
  let fs1 : gmap string node :=
    {[ "2024-03-01" := NDir {[ sample_name := EFile "png-bytes" sample_stamp ]} ]} in
  (delete_file sample_name (sample_now + seconds 3600) fs1).1 = true ∧
  stat (delete_file sample_name (sample_now + seconds 3600) fs1).2
       (mk_path "2024-03-01" sample_name) = None.
Proof.
  intros fs1.
  assert (Hsave : save_file sample_manager NoFault "png-bytes" sample_name None
                    sample_now sample_stamp ∅
                  = (Saved (mk_info sample_name
                              "generated_images/2024-03-01/20240101_120000_000_abcdef12.png"
                              "2024-03-01/20240101_120000_000_abcdef12.png" 9 "2024-03-01"),
                     fs1)) by (vm_compute; reflexivity).
  destruct (save_then_delete_file _ _ _ _ _ _ _ _ _ (sample_now + seconds 3600)
              Hsave eq_refl eq_refl) as (Htrue & Hgone & _).
  split; [exact Htrue | exact Hgone].
Defined.

End save_delete.
